(** * Verification of the dms transcode package (transcode/transcode.go)

    A shallow embedding of the Go package [transcode]: the per-stream codec
    policy [streamArgs], the four profile builders, the process launcher
    [transcodePipe], the command tokenizer [parseCommandLine] and the ad-hoc
    entry point [Exec].

    Go strings are byte sequences; they are modelled as [string], whose
    characters ([ascii]) are exactly the 8-bit bytes.  [time.Duration] is a
    signed 64-bit count of nanoseconds and is modelled as [Z]. *)

From Stdlib Require Import ZArith String Ascii List Lia DecimalString.
From Stdlib Require Import DecimalPos DecimalZ.
From Stdlib Require Import Floats.SpecFloat.
From stdpp Require Import base option gmap strings list fin_maps.

Local Open Scope string_scope.
Local Open Scope list_scope.
Local Open Scope Z_scope.

#[local] Set Warnings "-register-all".

(** ** Bytes and strings *)

(** The double quote and the other bytes the tokenizer tests for. *)
Definition dquote : ascii := Ascii.ascii_of_nat 34.
Definition squote : ascii := Ascii.ascii_of_nat 39.
Definition backslash : ascii := Ascii.ascii_of_nat 92.
Definition space : ascii := Ascii.ascii_of_nat 32.
Definition tab : ascii := Ascii.ascii_of_nat 9.

(** Go's conversion [string(c)] of a byte [c]: the UTF-8 encoding of the code
    point U+00cc.  Below 0x80 that is the byte itself, from 0x80 on it is the
    two bytes [0xC0 | c >> 6] and [0x80 | c & 0x3F]. *)
Definition string_of_byte (c : ascii) : string :=
  let n := Z.of_N (N_of_ascii c) in
  if (n <? 128)%Z then String c EmptyString
  else String (ascii_of_N (Z.to_N (Z.lor 192 (Z.shiftr n 6))))
         (String (ascii_of_N (Z.to_N (Z.lor 128 (Z.land n 63)))) EmptyString).

(** [strconv.Itoa] and [strconv.FormatInt(_, 10)]: the decimal rendering of a
    signed integer, with a leading minus sign for negative numbers. *)
Definition Itoa (n : Z) : string := NilZero.string_of_int (Z.to_int n).

(** ** The tokenizer [parseCommandLine] *)

Module Tokenizer.

(** The three values the local variable [state] takes. *)
Inductive pstate := Start | Arg | Quotes.

(** The local variables of [parseCommandLine] that live across iterations. *)
Record vars := Vars {
  args : list string;
  state : pstate;
  current : string;
  quote : string;
  escapeNext : bool
}.

(** Values on entry to the loop (lines 171-175). *)
Definition init : vars :=
  {| args := []; state := Start; current := ""; quote := string_of_byte dquote;
     escapeNext := true |}.

Definition is_quote_char (c : ascii) : bool :=
  Ascii.eqb c dquote || Ascii.eqb c squote.

Definition is_blank (c : ascii) : bool :=
  Ascii.eqb c space || Ascii.eqb c tab.

(** One iteration of the loop body (lines 177-221) on the byte [c]. *)
Definition step (c : ascii) (v : vars) : vars :=
  match state v with
  | Quotes =>
      if negb (String.eqb (string_of_byte c) (quote v)) then
        {| args := args v; state := Quotes;
           current := current v +:+ string_of_byte c;
           quote := quote v; escapeNext := escapeNext v |}
      else
        {| args := args v ++ [current v]; state := Start; current := "";
           quote := quote v; escapeNext := escapeNext v |}
  | st =>
      if escapeNext v then
        {| args := args v; state := st;
           current := current v +:+ string_of_byte c;
           quote := quote v; escapeNext := false |}
      else if Ascii.eqb c backslash then
        {| args := args v; state := st; current := current v;
           quote := quote v; escapeNext := true |}
      else if is_quote_char c then
        {| args := args v; state := Quotes; current := current v;
           quote := string_of_byte c; escapeNext := false |}
      else
        match st with
        | Arg =>
            if is_blank c then
              {| args := args v ++ [current v]; state := Start; current := "";
                 quote := quote v; escapeNext := false |}
            else
              {| args := args v; state := Arg;
                 current := current v +:+ string_of_byte c;
                 quote := quote v; escapeNext := false |}
        | _ =>
            if negb (is_blank c) then
              {| args := args v; state := Arg;
                 current := current v +:+ string_of_byte c;
                 quote := quote v; escapeNext := false |}
            else v
        end
  end.

(** The [for] loop over the bytes of [command], left to right. *)
Fixpoint loop (command : string) (v : vars) : vars :=
  match command with
  | EmptyString => v
  | String c rest => loop rest (step c v)
  end.

(** What follows the loop (lines 224-232): the pair of Go results, a [nil]
    error being [None]. *)
Definition finish (command : string) (v : vars) : list string * option string :=
  match state v with
  | Quotes => ([], Some ("Unclosed quote in command line: " +:+ command))
  | _ =>
      if negb (String.eqb (current v) "") then (args v ++ [current v], None)
      else (args v, None)
  end.

Definition parseCommandLine (command : string) : list string * option string :=
  finish command (loop command init).

End Tokenizer.

(** ** Probed stream descriptors *)

(** The dynamic values an [interface{}] holds after JSON decoding; the [nil]
    interface is [VNil].  Objects nested inside a descriptor are never
    inspected and are kept as association lists. *)
Inductive value :=
  | VNil
  | VBool (b : bool)
  | VFloat64 (f : spec_float)
  | VString (s : string)
  | VArray (l : list value)
  | VObject (m : list (string * value)).

(** A descriptor is a Go [map[string]interface{}]. *)
Abbreviation Stream := (gmap string value).

(** Indexing a Go map: a missing key reads as the zero value, the [nil]
    interface. *)
Definition map_index (s : Stream) (k : string) : value :=
  default VNil (s !! k).

(** [v == "lit"] for an interface value [v] and a string constant: true
    exactly when the dynamic type is [string] and the contents agree. *)
Definition iface_eq_string (v : value) (lit : string) : bool :=
  match v with
  | VString x => String.eqb x lit
  | _ => false
  end.

(** How a Go function call ends: with its results, or with a run-time panic. *)
Inductive panic := InterfaceConversion | IndexOutOfRange.

Inductive outcome (A : Type) :=
  | Returns (a : A)
  | Panics (p : panic).
Arguments Returns {A} a.
Arguments Panics {A} p.

(** ** The host: collaborators that are not part of the package *)

Definition error := string.
Definition Writer := N.
Definition ReadCloser := N.

(** [exec.Cmd] as far as the package touches it. *)
Record Cmd := MkCmd {
  Path : string;
  Args : list string;
  Stderr : Writer
}.

(** [exec.Command(name, arg...)] *)
Definition exec_Command (name : string) (arg : list string) : Cmd :=
  {| Path := name; Args := name :: arg; Stderr := 0%N |}.

Definition set_Stderr (c : Cmd) (w : Writer) : Cmd :=
  {| Path := Path c; Args := Args c; Stderr := w |}.

(** Everything the package calls but does not define: the Go runtime, the
    [misc] and [ffprobe] packages and the process primitives of [os/exec].
    [cmd_StdoutPipe] returns either the pipe or the error (os/exec returns a
    nil reader with an error); [cmd_Start] returns the error, if any.
    [int_of_unrepresentable] is the result of converting to [int] a float64
    that no [int] represents, which Go leaves to the implementation. *)
Record Env := MkEnv {
  NumCPU : Z;
  FormatDurationSexagesimal : Z -> string;
  ffprobe_Run : string -> list Stream + error;
  int_of_unrepresentable : spec_float -> Z;
  cmd_StdoutPipe : Cmd -> ReadCloser + error;
  cmd_Start : Cmd -> option error
}.

(** Go's conversion [int(f)] of a float64 (64-bit [int]): the fraction is
    discarded, truncating towards zero. *)
Definition float64_trunc (f : spec_float) : option Z :=
  match f with
  | S754_zero _ => Some 0
  | S754_finite sign m e =>
      let mag := Z.shiftl (Zpos m) e in
      Some (if sign then - mag else mag)
  | S754_infinity _ | S754_nan => None
  end.

Definition float64_to_int (E : Env) (f : spec_float) : Z :=
  match float64_trunc f with
  | Some n =>
      if (- 2 ^ 63 <=? n) && (n <? 2 ^ 63) then n
      else int_of_unrepresentable E f
  | None => int_of_unrepresentable E f
  end.

(** ** The codec policy selector [streamArgs] *)

(** The [switch] of lines 52-71: the value of [ret] when the body returns. *)
Definition streamArgs_body (s : Stream) : list string :=
  let codec_type := map_index s "codec_type" in
  if iface_eq_string codec_type "video" then
    ["-target"; "pal-dvd"]
  else if iface_eq_string codec_type "audio" then
    if iface_eq_string (map_index s "codec_name") "dca" then
      ["-acodec"; "ac3"; "-ab"; "224k"; "-ac"; "2"]
    else
      ["-acodec"; "copy"]
  else if iface_eq_string codec_type "subtitle" then
    ["-scodec"; "copy"]
  else
    [].

(** The deferred function of lines 45-51, run on the value of [ret]; the type
    assertion [.(float64)] panics on any other dynamic type. *)
Definition streamArgs_deferred (E : Env) (s : Stream) (ret : list string)
  : outcome (list string) :=
  if negb (length ret =? 0)%nat then
    match map_index s "index" with
    | VFloat64 f =>
        Returns (ret ++ ["-map"; "0:" +:+ Itoa (float64_to_int E f)])
    | _ => Panics InterfaceConversion
    end
  else Returns ret.

Definition streamArgs (E : Env) (s : Stream) : outcome (list string) :=
  streamArgs_deferred E s (streamArgs_body s).

(** ** Effects: the log and the goroutines a call leaves behind *)

Inductive event :=
  | LogPrintln (argv : list string)
  | GoWait (c : Cmd).

(** A call produces its events in order and then returns or panics. *)
Definition M (A : Type) : Type := list event * outcome A.

Definition ret {A} (a : A) : M A := ([], Returns a).
Definition raise {A} (p : panic) : M A := ([], Panics p).
Definition emit (e : event) : M unit := ([e], Returns tt).
Definition bind {A B} (m : M A) (k : A -> M B) : M B :=
  match m with
  | (tr, Returns a) => let '(tr', o) := k a in (tr ++ tr', o)
  | (tr, Panics p) => (tr, Panics p)
  end.
Definition lift {A} (o : outcome A) : M A := ([], o).

Notation "'call' x <- m ; k" := (bind m (fun x => k))
  (at level 10, x name, m at level 100, k at level 200).
Notation "'run' m ; k" := (bind m (fun _ => k))
  (at level 10, m at level 100, k at level 200).

(** The two results [(r io.ReadCloser, err error)] every entry point has. *)
Definition results : Type := option ReadCloser * option error.

(** ** The launcher [transcodePipe] *)

Definition transcodePipe (E : Env) (args : list string) (stderr : Writer)
  : M results :=
  run emit (LogPrintln args);
  match args with
  | [] => raise IndexOutOfRange
  | name :: rest =>
      let cmd := set_Stderr (exec_Command name rest) stderr in
      match cmd_StdoutPipe E cmd with
      | inr err => ret (None, Some err)
      | inl r =>
          match cmd_Start E cmd with
          | Some err => ret (Some r, Some err)
          | None => run emit (GoWait cmd); ret (Some r, None)
          end
      end
  end.

(** ** The profile builders *)

(** The loop of lines 94-96: the directives of the streams are appended in
    order; the first panic of [streamArgs] ends the loop. *)
Fixpoint range_Streams (E : Env) (streams : list Stream) (args : list string)
  : outcome (list string) :=
  match streams with
  | [] => Returns args
  | s :: rest =>
      match streamArgs E s with
      | Returns d => range_Streams E rest (args ++ d)
      | Panics p => Panics p
      end
  end.

(** [Transcode] up to its last line: the argument vector handed to the
    launcher ([inl]), or the probe error returned at line 92 ([inr]). *)
Definition Transcode_args (E : Env) (path : string) (start length : Z)
  : outcome (list string + error) :=
  let args :=
    ["ffmpeg";
     "-threads"; Itoa (NumCPU E);
     "-async"; "1";
     "-ss"; FormatDurationSexagesimal E start] in
  let args :=
    if 0 <=? length then args ++ ["-t"; FormatDurationSexagesimal E length]
    else args in
  let args := args ++ ["-i"; path] in
  match ffprobe_Run E path with
  | inr err => Returns (inr err)
  | inl streams =>
      match range_Streams E streams args with
      | Returns args => Returns (inl (args ++ ["-f"; "mpegts"; "pipe:"]))
      | Panics p => Panics p
      end
  end.

Definition Transcode (E : Env) (path : string) (start length : Z)
    (stderr : Writer) : M results :=
  call built <- lift (Transcode_args E path start length);
  match built with
  | inr err => ret (None, Some err)
  | inl args => transcodePipe E args stderr
  end.

Definition VP8Transcode_args (E : Env) (path : string) (start length : Z)
  : list string :=
  let args :=
    ["avconv";
     "-threads"; Itoa (NumCPU E);
     "-async"; "1";
     "-ss"; FormatDurationSexagesimal E start] in
  let args :=
    if 0 <? length then args ++ ["-t"; FormatDurationSexagesimal E length]
    else args in
  args ++ ["-i"; path; "-f"; "webm"; "pipe:"].

Definition VP8Transcode (E : Env) (path : string) (start length : Z)
    (stderr : Writer) : M results :=
  transcodePipe E (VP8Transcode_args E path start length) stderr.

Definition ChromecastTranscode_args (E : Env) (path : string)
    (start length : Z) : list string :=
  let args :=
    ["ffmpeg";
     "-ss"; FormatDurationSexagesimal E start;
     "-i"; path;
     "-c:v"; "libx264"; "-preset"; "ultrafast"; "-profile:v"; "high";
     "-level"; "5.0";
     "-movflags"; "+faststart+frag_keyframe+empty_moov"] in
  let args :=
    if 0 <? length then args ++ ["-t"; FormatDurationSexagesimal E length]
    else args in
  args ++ ["-f"; "mp4"; "pipe:"].

Definition ChromecastTranscode (E : Env) (path : string) (start length : Z)
    (stderr : Writer) : M results :=
  transcodePipe E (ChromecastTranscode_args E path start length) stderr.

Definition WebTranscode_args (E : Env) (path : string) (start length : Z)
  : list string :=
  let args :=
    ["ffmpeg";
     "-ss"; FormatDurationSexagesimal E start;
     "-i"; path;
     "-pix_fmt"; "yuv420p";
     "-c:v"; "libx264"; "-crf"; "25";
     "-c:a"; "mp3"; "-ab"; "128k"; "-ar"; "44100";
     "-preset"; "ultrafast";
     "-movflags"; "+faststart+frag_keyframe+empty_moov"] in
  let args :=
    if 0 <? length then args ++ ["-t"; FormatDurationSexagesimal E length]
    else args in
  args ++ ["-f"; "mp4"; "pipe:"].

Definition WebTranscode (E : Env) (path : string) (start length : Z)
    (stderr : Writer) : M results :=
  transcodePipe E (WebTranscode_args E path start length) stderr.

(** ** The ad-hoc entry point [Exec] *)

Definition Exec (E : Env) (cmds : string) (start length : Z) (stderr : Writer)
  : M results :=
  let '(cmda, aerr) := Tokenizer.parseCommandLine cmds in
  match aerr with
  | Some err => ret (None, Some err)
  | None => transcodePipe E cmda stderr
  end.

(** ** Sample inputs used by the closed examples *)

(** A host whose probe reports the streams [streams], whose pipe creation
    and process start end as [pipe] and [started] say, and which renders a
    duration as its decimal count of nanoseconds. *)
Definition sample_env (streams : list Stream) (pipe : ReadCloser + error)
    (started : option error) : Env :=
  {| NumCPU := 4;
     FormatDurationSexagesimal := Itoa;
     ffprobe_Run := fun _ => inl streams;
     int_of_unrepresentable := fun _ => - 2 ^ 63;
     cmd_StdoutPipe := fun _ => pipe;
     cmd_Start := fun _ => started |}.

Definition float64_of_N (n : N) : spec_float :=
  match n with
  | N0 => S754_zero false
  | Npos p => S754_finite false p 0
  end.

Definition sample_stream (codec_type codec_name : string) (index : N) : Stream :=
  <[ "index" := VFloat64 (float64_of_N index) ]>
  (<[ "codec_type" := VString codec_type ]>
  (<[ "codec_name" := VString codec_name ]> (empty : Stream))).

Import Tokenizer.

(** The command of the tokenizer example: foo, a quoted "bar baz", qux. *)
Definition sample_command : string :=
  "foo " +:+ String dquote "bar baz" +:+ String dquote " qux".

(** No byte of [s] is a quote character. *)
Fixpoint quote_free (s : string) : bool :=
  match s with
  | EmptyString => true
  | String c rest => negb (is_quote_char c) && quote_free rest
  end.

(** The variables after the first byte [c] of a command has been consumed as
    an escaped literal. *)
Definition after_first (c : ascii) : vars :=
  {| args := []; state := Tokenizer.Start; current := string_of_byte c;
     quote := string_of_byte dquote; escapeNext := false |}.

(** The first token, emitted or still pending, begins with [p]. *)
Definition led_by (p : string) (v : vars) : Prop :=
  (args v = [] /\ exists t, current v = p +:+ t)
  \/ (exists t ts, args v = (p +:+ t) :: ts).

(** The descriptor's codec type is one of the three the policy knows. *)
Definition known_codec_type (s : Stream) : bool :=
  iface_eq_string (map_index s "codec_type") "video"
  || iface_eq_string (map_index s "codec_type") "audio"
  || iface_eq_string (map_index s "codec_type") "subtitle".

(** The length flag with its timestamp, when it is included. *)
Definition t_flag (E : Env) (included : bool) (length : Z) : list string :=
  if included then ["-t"; FormatDurationSexagesimal E length] else [].

(** Some occurrence of [x] comes before some occurrence of [y] in [l]. *)
Definition precedes (x y : string) (l : list string) : Prop :=
  exists a b c, l = a ++ x :: b ++ y :: c.

Fixpoint precedesb (x y : string) (l : list string) : bool :=
  match l with
  | [] => false
  | h :: t => (String.eqb h x && existsb (String.eqb y) t) || precedesb x y t
  end.

(** Every stream of the list gets the directive at the same place of [ds]. *)
Definition directives (E : Env) (streams : list Stream)
    (ds : list (list string)) : Prop :=
  Forall2 (fun s d => streamArgs E s = Returns d) streams ds.

(** A video stream and a dca audio stream, as a probe reports them. *)
Definition sample_streams : list Stream :=
  [sample_stream "video" "h264" 0; sample_stream "audio" "dca" 1].

(** A host on which the probe finds [sample_streams] and every launch
    succeeds. *)
Definition sample_host : Env := sample_env sample_streams (inl 3%N) None.


(** ** Vocabulary for the properties of the tokenizer *)

(** The bytes of [w], each converted by [string(c)] and concatenated: what
    [current += string(c)] accumulates over [w]. *)
Fixpoint utf8 (w : string) : string :=
  match w with
  | EmptyString => EmptyString
  | String c rest => string_of_byte c +:+ utf8 rest
  end.

(** A byte the tokenizer gives no special meaning to. *)
Definition is_plain (c : ascii) : bool :=
  negb (is_blank c) && negb (is_quote_char c) && negb (Ascii.eqb c backslash).

Fixpoint plain (w : string) : bool :=
  match w with
  | EmptyString => true
  | String c rest => is_plain c && plain rest
  end.

Fixpoint all_blank (w : string) : bool :=
  match w with
  | EmptyString => true
  | String c rest => is_blank c && all_blank rest
  end.

(** The byte [q] does not occur in [w]. *)
Fixpoint absent (q : ascii) (w : string) : bool :=
  match w with
  | EmptyString => true
  | String c rest => negb (Ascii.eqb c q) && absent q rest
  end.

Definition is_high (c : ascii) : bool := negb (Z.of_N (N_of_ascii c) <? 128).

(** Every byte of [w] is below 0x80. *)
Fixpoint ascii_only (w : string) : bool :=
  match w with
  | EmptyString => true
  | String c rest => negb (is_high c) && ascii_only rest
  end.

(** The number of bytes of [w] from 0x80 on. *)
Fixpoint high_bytes (w : string) : nat :=
  match w with
  | EmptyString => O
  | String c rest => ((if is_high c then 1 else 0) + high_bytes rest)%nat
  end.

(** A non-empty word of plain bytes. *)
Definition word (w : string) : bool :=
  plain w && negb (String.eqb w "").

(** The words of [ws] with one space between neighbours. *)
Fixpoint join_words (ws : list string) : string :=
  match ws with
  | [] => ""
  | w :: rest =>
      match rest with
      | [] => w
      | _ => w +:+ String space (join_words rest)
      end
  end.

(** The variables after the pending token has been emitted. *)
Definition emitted (v : vars) (q : string) (e : bool) : vars :=
  {| args := args v ++ [current v]; state := Tokenizer.Start; current := "";
     quote := q; escapeNext := e |}.

(** The variables after [x] has been appended to the pending token. *)
Definition pushed (v : vars) (st : pstate) (x : string) (e : bool) : vars :=
  {| args := args v; state := st; current := current v +:+ x;
     quote := quote v; escapeNext := e |}.

(** The tokens held in [v]: those emitted, and the pending one if any. *)
Definition held (v : vars) : nat :=
  (length (args v) + (if String.eqb (current v) "" then 0 else 1))%nat.

(** ** Vocabulary for the properties of the builders and entry points *)

(** [streamArgs] does not panic on [s]: the codec type is not one the policy
    knows, or the index holds a float64. *)
Definition well_formed (s : Stream) : bool :=
  negb (known_codec_type s)
  || match map_index s "index" with VFloat64 _ => true | _ => false end.

(** The events and results of a launch that went through: the vector was
    logged, one reaper waits on the command made from it and bound to the
    sink [stderr], and a stream is returned. *)
Definition launched (stderr : Writer) (tr : list event) (r : option ReadCloser)
  : Prop :=
  exists h name rest,
    r = Some h
    /\ tr = [LogPrintln (name :: rest);
             GoWait {| Path := name; Args := name :: rest; Stderr := stderr |}].

(** No reaper was spawned during [tr]. *)
Definition no_reaper (tr : list event) : Prop :=
  forall c, ~ In (GoWait c) tr.

(** The vector [Transcode] hands to the launcher for the directives [ds]. *)
Definition Transcode_vector (E : Env) (path : string) (start length : Z)
    (ds : list (list string)) : list string :=
  ["ffmpeg"; "-threads"; Itoa (NumCPU E); "-async"; "1";
   "-ss"; FormatDurationSexagesimal E start]
  ++ t_flag E (0 <=? length) length ++ ["-i"; path]
  ++ concat ds ++ ["-f"; "mpegts"; "pipe:"].

(** The flag tokens the policy table is made of. *)
Definition policy_tokens : list string :=
  ["-target"; "pal-dvd"; "-acodec"; "ac3"; "-ab"; "224k"; "-ac"; "2"; "copy";
   "-scodec"; "-map"].

(** A token of a directive: a flag of the table, or a stream selector made of
    0: and the decimal rendering of an integer. *)
Definition directive_token (t : string) : Prop :=
  In t policy_tokens \/ exists n : Z, t = "0:" +:+ Itoa n.

(** * Properties *)

(** ** Strings *)

Lemma append_assoc (a b c : string) : (a +:+ b) +:+ c = a +:+ (b +:+ c).
Proof.
  induction a as [|x a IH]; [reflexivity | exact (f_equal (String x) IH)].
Qed.

Lemma append_nil_r (a : string) : a +:+ "" = a.
Proof.
  induction a as [|x a IH]; [reflexivity | exact (f_equal (String x) IH)].
Qed.

Lemma string_of_byte_nonempty (c : ascii) : string_of_byte c <> "".
Proof. unfold string_of_byte. destruct (_ <? _); discriminate. Qed.

Lemma string_of_byte_low (c : ascii) :
  (N_of_ascii c < 128)%N -> string_of_byte c = String c "".
Proof.
  intros H. unfold string_of_byte.
  destruct (Z.ltb_spec (Z.of_N (N_of_ascii c)) 128) as [_|Hge]; [reflexivity | lia].
Qed.

(** ** The tokenizer *)

Lemma step_init (c : ascii) : step c init = after_first c.
Proof. reflexivity. Qed.

Lemma led_by_after_first (c : ascii) : led_by (string_of_byte c) (after_first c).
Proof. left. split; [reflexivity | exists ""; now rewrite append_nil_r]. Qed.

Lemma led_by_append p v x q e st :
  led_by p v ->
  led_by p {| args := args v; state := st; current := current v +:+ x;
              quote := q; escapeNext := e |}.
Proof.
  intros [[Ha [t Ht]]|[t [ts Ht]]]; [left | right]; simpl.
  - split; [assumption|]. exists (t +:+ x). now rewrite Ht, append_assoc.
  - eauto.
Qed.

Lemma led_by_emit p v q e st :
  led_by p v ->
  led_by p {| args := args v ++ [current v]; state := st; current := "";
              quote := q; escapeNext := e |}.
Proof.
  intros [[Ha [t Ht]]|[t [ts Ht]]]; right; simpl.
  - exists t, []. now rewrite Ha, Ht.
  - exists t, (ts ++ [current v]). now rewrite Ht.
Qed.

Lemma led_by_keep p v q e st :
  led_by p v ->
  led_by p {| args := args v; state := st; current := current v;
              quote := q; escapeNext := e |}.
Proof. intros [H|H]; [left | right]; exact H. Qed.

Lemma step_led_by p c v : led_by p v -> led_by p (step c v).
Proof.
  intros H. unfold step.
  destruct (state v); repeat
    match goal with
    | |- led_by _ (if ?b then _ else _) => destruct b
    end;
  auto using led_by_append, led_by_emit, led_by_keep.
Qed.

Lemma loop_led_by p command : forall v, led_by p v -> led_by p (loop command v).
Proof.
  induction command as [|c rest IH]; intros v H; simpl; [exact H|].
  apply IH, step_led_by, H.
Qed.

Lemma pending_led_by p v toks :
  p <> "" -> led_by p v ->
  (if negb (String.eqb (current v) "") then (args v ++ [current v], None)
   else (args v, @None string)) = (toks, None) ->
  exists t ts, toks = (p +:+ t) :: ts.
Proof.
  intros Hp H.
  destruct (String.eqb_spec (current v) "") as [Hc|Hc]; simpl; intros [= <-].
  - destruct H as [[Ha [t Ht]]|[t [ts Ht]]]; [|eauto].
    rewrite Hc in Ht. destruct p; [congruence | discriminate].
  - destruct H as [[Ha [t Ht]]|[t [ts Ht]]].
    + exists t, []. now rewrite Ha, Ht.
    + exists t, (ts ++ [current v]). now rewrite Ht.
Qed.

Lemma finish_led_by p command v toks :
  p <> "" -> led_by p v -> finish command v = (toks, None) ->
  exists t ts, toks = (p +:+ t) :: ts.
Proof.
  intros Hp H. unfold finish.
  destruct (state v); [| | discriminate]; now apply pending_led_by.
Qed.

(** The loop never leaves the states [Start] and [Arg] on a byte that is not a
    quote character. *)
Lemma step_stays_unquoted c v :
  is_quote_char c = false -> state v <> Quotes -> state (step c v) <> Quotes.
Proof.
  intros Hc Hs. unfold step. rewrite Hc.
  destruct (state v) eqn:Hst; try congruence;
    destruct (escapeNext v), (Ascii.eqb c backslash), (is_blank c);
    simpl; congruence.
Qed.

Lemma loop_stays_unquoted command :
  forall v, quote_free command = true -> state v <> Quotes ->
            state (loop command v) <> Quotes.
Proof.
  induction command as [|c rest IH]; intros v Hq Hs; simpl in *; [exact Hs|].
  apply andb_prop in Hq as [Hc Hq]. apply negb_true_iff in Hc.
  apply IH; [exact Hq | now apply step_stays_unquoted].
Qed.

Lemma finish_error_iff command v :
  snd (finish command v) = None <-> state v <> Quotes.
Proof.
  unfold finish.
  destruct (state v); try destruct (negb _); simpl; split; congruence.
Qed.

(** C3. The tokenizer takes the very first byte of a non-empty command as an
    escaped literal: whatever the byte is (a quote, a backslash, a blank), it
    is appended to the current token through [string(c)] and nothing else
    changes, so the state is still [start], no token has been emitted and no
    quoted section is open; when tokenizing succeeds, the first token begins
    with that byte.  ([string(c)] is the byte itself for every byte below
    0x80, which covers the quote characters, the backslash and the blanks.) *)
Theorem C3_first_byte_escaped (c : ascii) (rest : string) :
  loop (String c rest) init = loop rest (after_first c)
  /\ (forall toks,
        parseCommandLine (String c rest) = (toks, None) ->
        exists t ts, toks = (string_of_byte c +:+ t) :: ts)
  /\ ((N_of_ascii c < 128)%N -> string_of_byte c = String c "").
Proof.
  split; [reflexivity | split].
  - intros toks H. unfold parseCommandLine in H. simpl loop in H.
    rewrite step_init in H.
    eapply finish_led_by; [apply string_of_byte_nonempty | | exact H].
    apply loop_led_by, led_by_after_first.
  - apply string_of_byte_low.
Qed.

(** A leading double quote is kept as the first byte of the first token. *)
Lemma C3_first_byte_escaped_witness :
  exists t ts, [String dquote "a"; "b"] = (string_of_byte dquote +:+ t) :: ts.
Proof.
  apply (proj1 (proj2 (C3_first_byte_escaped dquote "a b"))).
  reflexivity.
Defined.

(** C4 (as the code behaves). Tokenizing the sample command returns the three
    tokens foo, bar baz and qux: the first byte f is kept, as the first byte
    of the first token. *)
Theorem C4_sample_tokens :
  parseCommandLine sample_command = (["foo"; "bar baz"; "qux"], None).
Proof. reflexivity. Qed.

(** C4 as stated fails: the result is not the list that starts with oo. *)
Lemma C4_sample_tokens_counterexample :
  parseCommandLine sample_command <> (["oo"; "bar baz"; "qux"], None).
Proof. vm_compute. discriminate. Qed.

(** C8 (as the code behaves). The tokenizer fails only when the input ends
    inside a quoted section, so backslashes, matched or not, never make it
    fail: a command with no quote character after its first byte always
    tokenizes.  An unescaped quote character met outside the quotes state
    opens a quoted section, in the start state and equally in the middle of a
    token in the arg state, and the token accumulated so far is kept.  A quote
    character is taken as an ordinary character only when it is escaped, or
    inside a section opened by the other quote character. *)
Theorem C8_quotes_and_backslashes :
  (forall command,
     snd (parseCommandLine command) = None <->
     state (loop command init) <> Quotes)
  /\ (forall c rest,
        quote_free rest = true ->
        snd (parseCommandLine (String c rest)) = None)
  /\ (forall c v,
        state v <> Quotes -> escapeNext v = false -> is_quote_char c = true ->
        step c v =
        {| args := args v; state := Quotes; current := current v;
           quote := string_of_byte c; escapeNext := false |})
  /\ (forall c v,
        state v <> Quotes -> escapeNext v = true ->
        step c v =
        {| args := args v; state := state v;
           current := current v +:+ string_of_byte c;
           quote := quote v; escapeNext := false |})
  /\ (forall c v,
        state v = Quotes -> string_of_byte c <> quote v ->
        step c v =
        {| args := args v; state := Quotes;
           current := current v +:+ string_of_byte c;
           quote := quote v; escapeNext := escapeNext v |}).
Proof.
  split; [|split; [|split; [|split]]].
  - intros command. apply finish_error_iff.
  - intros c rest Hq. unfold parseCommandLine. apply finish_error_iff.
    simpl loop. rewrite step_init.
    apply loop_stays_unquoted; [exact Hq | discriminate].
  - intros c v Hs He Hc. unfold step. rewrite He, Hc.
    assert (Hb : Ascii.eqb c backslash = false).
    { unfold is_quote_char in Hc. apply orb_prop in Hc as [Hc|Hc];
        apply Ascii.eqb_eq in Hc; subst c; reflexivity. }
    rewrite Hb. destruct (state v); congruence.
  - intros c v Hs He. unfold step. rewrite He.
    destruct (state v); congruence.
  - intros c v Hs Hne. unfold step. rewrite Hs.
    apply String.eqb_neq in Hne. now rewrite Hne.
Qed.

(** A trailing backslash after a complete token: tokenizing succeeds. *)
Lemma C8_quotes_and_backslashes_witness :
  snd (parseCommandLine ("ab" +:+ String backslash "")) = None
  /\ state (step squote (loop "ab" init)) = Quotes.
Proof.
  split.
  - apply (proj1 (proj2 C8_quotes_and_backslashes) "a"%char
             ("b" +:+ String backslash "")).
    reflexivity.
  - rewrite (proj1 (proj2 (proj2 C8_quotes_and_backslashes)) squote
               (loop "ab" init)); [reflexivity | discriminate | reflexivity
                                   | reflexivity].
Defined.

(** C8 as stated fails: after the bytes ab the tokenizer is accumulating an
    unquoted token in the arg state, with no escape pending; the double quote
    that follows is not taken as an ordinary character but opens a quoted
    section, and since nothing closes it the command is rejected. *)
Lemma C8_quotes_and_backslashes_counterexample :
  state (loop "ab" init) = Arg
  /\ escapeNext (loop "ab" init) = false
  /\ state (step dquote (loop "ab" init)) = Quotes
  /\ current (step dquote (loop "ab" init)) = "ab"
  /\ exists err,
       parseCommandLine ("ab" +:+ String dquote "cd") = ([], Some err).
Proof. repeat split. eexists. reflexivity. Qed.

(** ** The launcher and the ad-hoc path *)

(** C9. [Exec] does not look at [start] and [length]: for any two pairs of
    them it produces the same events and the same results, and the argument
    vector it hands to the launcher is exactly the token list of the command,
    with no flag added. *)
Theorem C9_Exec_ignores_window (E : Env) (cmds : string) (stderr : Writer)
    (start1 length1 start2 length2 : Z) :
  Exec E cmds start1 length1 stderr = Exec E cmds start2 length2 stderr
  /\ Exec E cmds start1 length1 stderr =
     match parseCommandLine cmds with
     | (_, Some err) => ([], Returns (None, Some err))
     | (cmda, None) => transcodePipe E cmda stderr
     end
  /\ (forall argv,
        In (LogPrintln argv) (fst (Exec E cmds start1 length1 stderr)) ->
        argv = fst (parseCommandLine cmds)).
Proof.
  split; [reflexivity | split].
  - unfold Exec. destruct (parseCommandLine cmds) as [cmda [err|]]; reflexivity.
  - unfold Exec. destruct (parseCommandLine cmds) as [cmda [err|]]; simpl.
    + intros argv [].
    + intros argv. unfold transcodePipe.
      destruct cmda as [|name rest]; simpl.
      * intros [[= <-]|[]]. reflexivity.
      * destruct (cmd_StdoutPipe E _); simpl;
          [destruct (cmd_Start E _); simpl|];
          intros [[= <-]|H]; try reflexivity; try contradiction.
        destruct H as [H|[]]. discriminate.
Qed.

Lemma C9_Exec_ignores_window_witness :
  ["ffmpeg"; "-i"; "a.mkv"] = fst (parseCommandLine "ffmpeg -i a.mkv").
Proof.
  apply (proj2 (proj2 (C9_Exec_ignores_window
                         (sample_env [] (inl 3%N) None) "ffmpeg -i a.mkv"
                         7%N 0 (-1) 5 9))).
  vm_compute. left. reflexivity.
Defined.

(** C10. The empty command tokenizes, without error, to the empty list;
    [Exec] hands that list to the launcher, which logs it and then panics on
    [args[0]] with an index out of range, whatever the host and the other
    parameters. *)
Theorem C10_empty_command_panics :
  parseCommandLine "" = ([], None)
  /\ (forall E stderr,
        transcodePipe E [] stderr = ([LogPrintln []], Panics IndexOutOfRange))
  /\ (forall E start length stderr,
        Exec E "" start length stderr
        = ([LogPrintln []], Panics IndexOutOfRange)).
Proof. repeat split. Qed.

(** C5 (as the code behaves). When pipe creation fails, the launcher returns
    the error and no stream; when the process fails to start, it returns the
    error and, in its first result, the pipe it had already created; in both
    cases, and whenever it returns an error at all, no reaper is spawned.  A
    successful start returns the pipe with no error and spawns the reaper. *)
Theorem C5_launch_failure (E : Env) (name : string) (rest : list string)
    (stderr : Writer) :
  let argv := name :: rest in
  let cmd := set_Stderr (exec_Command name rest) stderr in
  (forall err,
     cmd_StdoutPipe E cmd = inr err ->
     transcodePipe E argv stderr
     = ([LogPrintln argv], Returns (None, Some err)))
  /\ (forall r err,
        cmd_StdoutPipe E cmd = inl r -> cmd_Start E cmd = Some err ->
        transcodePipe E argv stderr
        = ([LogPrintln argv], Returns (Some r, Some err)))
  /\ (forall r,
        cmd_StdoutPipe E cmd = inl r -> cmd_Start E cmd = None ->
        transcodePipe E argv stderr
        = ([LogPrintln argv; GoWait cmd], Returns (Some r, None)))
  /\ (forall tr r err,
        transcodePipe E argv stderr = (tr, Returns (r, Some err)) ->
        forall c, ~ In (GoWait c) tr).
Proof.
  intros argv cmd. unfold transcodePipe, argv. fold cmd.
  repeat split.
  - intros err ->. reflexivity.
  - intros r err -> ->. reflexivity.
  - intros r -> ->. reflexivity.
  - intros tr r err H c.
    destruct (cmd_StdoutPipe E cmd); [destruct (cmd_Start E cmd)|];
      simpl in H; injection H as <- ? ?; try discriminate;
      intros [?|[]]; discriminate.
Qed.

(** A binary that cannot be started: the error comes back with the pipe. *)
Lemma C5_launch_failure_witness :
  transcodePipe (sample_env [] (inl 3%N) (Some "executable file not found"))
    ["no-such-binary"; "-i"; "a.mkv"] 7%N
  = ([LogPrintln ["no-such-binary"; "-i"; "a.mkv"]],
     Returns (Some 3%N, Some "executable file not found")).
Proof.
  apply (proj1 (proj2 (C5_launch_failure
           (sample_env [] (inl 3%N) (Some "executable file not found"))
           "no-such-binary" ["-i"; "a.mkv"] 7%N)));
    reflexivity.
Defined.

(** C5 as stated fails: there is a host on which the process does not start
    and the caller nevertheless receives a stream handle with the error. *)
Lemma C5_launch_failure_counterexample :
  ~ (forall E argv stderr tr r err,
       transcodePipe E argv stderr = (tr, Returns (r, Some err)) -> r = None).
Proof.
  intros H.
  specialize (H (sample_env [] (inl 3%N) (Some "executable file not found"))
                ["no-such-binary"] 7%N _ _ _ eq_refl).
  discriminate H.
Qed.

(** ** The codec policy selector *)

Lemma iface_eq_string_true (s : Stream) (k lit : string) :
  iface_eq_string (map_index s k) lit = true <-> s !! k = Some (VString lit).
Proof.
  unfold map_index. destruct (s !! k) as [[]|]; simpl; split;
    try discriminate; try (intros [= ?]; discriminate).
  - intros H. apply String.eqb_eq in H. now subst.
  - intros [= ->]. apply String.eqb_refl.
Qed.

Lemma iface_eq_string_false (s : Stream) (k lit : string) :
  iface_eq_string (map_index s k) lit = false <-> s !! k <> Some (VString lit).
Proof.
  rewrite <- iface_eq_string_true.
  destruct (iface_eq_string _ _); split; congruence.
Qed.

Lemma map_index_float (s : Stream) (k : string) (f : spec_float) :
  map_index s k = VFloat64 f <-> s !! k = Some (VFloat64 f).
Proof.
  unfold map_index. destruct (s !! k) as [[]|]; simpl; split; congruence.
Qed.

Lemma float64_to_int_of_N (E : Env) (n : N) :
  Z.of_N n < 2 ^ 63 -> float64_to_int E (float64_of_N n) = Z.of_N n.
Proof.
  intros H. destruct n as [|p]; [reflexivity|].
  unfold float64_to_int, float64_of_N, float64_trunc.
  rewrite Z.shiftl_0_r.
  destruct (Z.leb_spec (- 2 ^ 63) (Z.pos p)); [|lia].
  destruct (Z.ltb_spec (Z.pos p) (2 ^ 63)); [reflexivity | simpl in *; lia].
Qed.

Ltac decide_test :=
  match goal with
  | |- context [iface_eq_string (map_index ?s ?k) ?lit] =>
      first [ rewrite (proj2 (iface_eq_string_true s k lit)) by assumption
            | rewrite (proj2 (iface_eq_string_false s k lit)) by congruence ]
  end.

(** C1. [streamArgs] implements the policy table.  A descriptor whose codec
    type is none of video, audio and subtitle gets the empty directive, with
    no -map token.  For a descriptor with a numeric index: video gets
    -target pal-dvd; audio gets -acodec ac3 -ab 224k -ac 2 when the codec
    name is dca and -acodec copy otherwise; subtitle gets -scodec copy; and
    each of these directives ends with -map and 0: followed by the decimal
    index, which for an index holding the integer n is the decimal n. *)
Theorem C1_policy_table (E : Env) (s : Stream) :
  ((forall lit, In lit ["video"; "audio"; "subtitle"] ->
                s !! "codec_type" <> Some (VString lit)) ->
   streamArgs E s = Returns [])
  /\ (forall f,
        s !! "index" = Some (VFloat64 f) ->
        let map_tokens := ["-map"; "0:" +:+ Itoa (float64_to_int E f)] in
        (s !! "codec_type" = Some (VString "video") ->
         streamArgs E s = Returns (["-target"; "pal-dvd"] ++ map_tokens))
        /\ (s !! "codec_type" = Some (VString "audio") ->
            s !! "codec_name" = Some (VString "dca") ->
            streamArgs E s
            = Returns (["-acodec"; "ac3"; "-ab"; "224k"; "-ac"; "2"]
                       ++ map_tokens))
        /\ (s !! "codec_type" = Some (VString "audio") ->
            s !! "codec_name" <> Some (VString "dca") ->
            streamArgs E s = Returns (["-acodec"; "copy"] ++ map_tokens))
        /\ (s !! "codec_type" = Some (VString "subtitle") ->
            streamArgs E s = Returns (["-scodec"; "copy"] ++ map_tokens)))
  /\ (forall n, Z.of_N n < 2 ^ 63 ->
                float64_to_int E (float64_of_N n) = Z.of_N n).
Proof.
  split; [|split].
  - intros H. unfold streamArgs, streamArgs_body.
    rewrite !(proj2 (iface_eq_string_false s "codec_type" _));
      [reflexivity | | | ]; apply H; simpl; auto.
  - intros f Hf map_tokens.
    apply map_index_float in Hf.
    unfold streamArgs, streamArgs_body, streamArgs_deferred.
    repeat split; intros; repeat decide_test; simpl; now rewrite Hf.
  - apply float64_to_int_of_N.
Qed.

(** An audio stream that is not dca, at index 12. *)
Lemma C1_policy_table_witness :
  streamArgs (sample_env [] (inl 3%N) None) (sample_stream "audio" "aac" 12)
  = Returns ["-acodec"; "copy"; "-map"; "0:12"].
Proof.
  apply (proj1 (proj2 (proj2 (proj1 (proj2
           (C1_policy_table (sample_env [] (inl 3%N) None)
                            (sample_stream "audio" "aac" 12)))
           (float64_of_N 12) eq_refl)))).
  - reflexivity.
  - discriminate.
Defined.

Lemma streamArgs_body_nil (s : Stream) :
  streamArgs_body s = [] <-> known_codec_type s = false.
Proof.
  unfold streamArgs_body, known_codec_type.
  destruct (iface_eq_string (map_index s "codec_type") "video");
  destruct (iface_eq_string (map_index s "codec_type") "audio");
  destruct (iface_eq_string (map_index s "codec_type") "subtitle");
  destruct (iface_eq_string (map_index s "codec_name") "dca");
  simpl; split; congruence.
Qed.

Lemma streamArgs_deferred_nil (E : Env) (s : Stream) :
  streamArgs_deferred E s [] = Returns [].
Proof. reflexivity. Qed.

Lemma streamArgs_deferred_cons (E : Env) (s : Stream) x ret :
  streamArgs_deferred E s (x :: ret) =
  match map_index s "index" with
  | VFloat64 f =>
      Returns ((x :: ret) ++ ["-map"; "0:" +:+ Itoa (float64_to_int E f)])
  | _ => Panics InterfaceConversion
  end.
Proof. reflexivity. Qed.

(** C6 (as the code behaves). [streamArgs] is deterministic, its result
    depending only on the three fields it reads.  It returns a directive
    whenever the codec type is not one of video, audio and subtitle (a missing
    or ill-typed codec type or codec name never makes it fail) and whenever
    the index holds a float64.  It panics, in the deferred type assertion,
    exactly when the codec type is one of the three and the index is missing
    or holds a value of another type. *)
Theorem C6_streamArgs_partial (E : Env) (s : Stream) :
  (streamArgs E s = Panics InterfaceConversion <->
   known_codec_type s = true /\ forall f, s !! "index" <> Some (VFloat64 f))
  /\ (known_codec_type s = false \/ (exists f, s !! "index" = Some (VFloat64 f)) ->
      exists d, streamArgs E s = Returns d)
  /\ (forall s' : Stream,
        s' !! "index" = s !! "index" ->
        s' !! "codec_type" = s !! "codec_type" ->
        s' !! "codec_name" = s !! "codec_name" ->
        streamArgs E s' = streamArgs E s).
Proof.
  assert (Hcases :
    (known_codec_type s = false /\ streamArgs E s = Returns [])
    \/ (known_codec_type s = true /\ exists x ret,
          streamArgs E s = streamArgs_deferred E s (x :: ret))).
  { unfold streamArgs. destruct (streamArgs_body s) as [|x ret] eqn:Hb.
    - left. split; [now apply streamArgs_body_nil | reflexivity].
    - right. split; [|eauto].
      destruct (known_codec_type s) eqn:Hk; [reflexivity|].
      apply streamArgs_body_nil in Hk. congruence. }
  split; [|split].
  - destruct Hcases as [[Hk Hr]|[Hk [x [ret Hr]]]]; rewrite Hr.
    + split; [discriminate | intros [? _]; congruence].
    + rewrite streamArgs_deferred_cons. split.
      * intros H. split; [exact Hk|]. intros f Hf.
        apply map_index_float in Hf. rewrite Hf in H. discriminate.
      * intros [_ H]. destruct (map_index s "index") eqn:Hi; try reflexivity.
        apply map_index_float in Hi. now apply H in Hi.
  - intros H. destruct Hcases as [[Hk Hr]|[Hk [x [ret Hr]]]]; [eauto|].
    destruct H as [H|[f Hf]]; [congruence|].
    rewrite Hr, streamArgs_deferred_cons.
    apply map_index_float in Hf. rewrite Hf. eauto.
  - intros s' Hi Ht Hn.
    unfold streamArgs, streamArgs_deferred, streamArgs_body, map_index.
    now rewrite Hi, Ht, Hn.
Qed.

(** A descriptor with no index whose codec type is unknown: no failure. *)
Lemma C6_streamArgs_partial_witness :
  exists d,
    streamArgs (sample_env [] (inl 3%N) None)
      (<[ "codec_type" := VString "data" ]> (empty : Stream)) = Returns d.
Proof.
  apply (proj1 (proj2 (C6_streamArgs_partial (sample_env [] (inl 3%N) None)
                  (<[ "codec_type" := VString "data" ]> (empty : Stream))))).
  left. reflexivity.
Defined.

(** C6 as stated fails: [streamArgs] is not total.  On a video descriptor
    without an index the deferred type assertion panics. *)
Lemma C6_streamArgs_partial_counterexample :
  streamArgs (sample_env [] (inl 3%N) None)
    (<[ "codec_type" := VString "video" ]> (empty : Stream))
  = Panics InterfaceConversion
  /\ ~ (forall (E : Env) (s : Stream), exists d, streamArgs E s = Returns d).
Proof.
  split; [reflexivity|].
  intros H.
  destruct (H (sample_env [] (inl 3%N) None)
              (<[ "codec_type" := VString "video" ]> (empty : Stream)))
    as [d Hd].
  discriminate Hd.
Qed.

(** ** The profile builders *)

Lemma Itoa_not_t_flag (n : Z) : Itoa n <> "-t".
Proof.
  unfold Itoa. destruct (Z.to_int n) as [u|u].
  - destruct u; discriminate.
  - intros [= H]. destruct u; discriminate H.
Qed.

(** No directive contains the length flag. *)
Lemma streamArgs_no_t_flag (E : Env) (s : Stream) (d : list string) :
  streamArgs E s = Returns d -> ~ In "-t" d.
Proof.
  unfold streamArgs, streamArgs_body, streamArgs_deferred.
  destruct (iface_eq_string (map_index s "codec_type") "video");
  [|destruct (iface_eq_string (map_index s "codec_type") "audio");
    [destruct (iface_eq_string (map_index s "codec_name") "dca")
    |destruct (iface_eq_string (map_index s "codec_type") "subtitle")]];
  simpl; try (intros [= <-] []);
  destruct (map_index s "index"); try discriminate;
  intros [= <-] H; simpl in H;
  repeat (destruct H as [H|H]; [discriminate H|]); exact H.
Qed.

Lemma directives_no_t_flag (E : Env) streams ds :
  directives E streams ds -> ~ In "-t" (concat ds).
Proof.
  induction 1 as [|s d streams ds Hd _ IH]; simpl; [tauto|].
  intros H. apply in_app_or in H as [H|H]; [|tauto].
  now apply streamArgs_no_t_flag in Hd.
Qed.

Lemma range_Streams_inv (E : Env) streams :
  forall a r,
    range_Streams E streams a = Returns r ->
    exists ds, directives E streams ds /\ r = a ++ concat ds.
Proof.
  induction streams as [|s streams IH]; intros a r; simpl.
  - intros [= <-]. exists []. split; [constructor | now rewrite app_nil_r].
  - destruct (streamArgs E s) as [d|] eqn:Hd; [|discriminate].
    intros H. apply IH in H as [ds [Hds ->]].
    exists (d :: ds). split; [now constructor | simpl; now rewrite app_assoc].
Qed.

Lemma range_Streams_complete (E : Env) streams ds :
  directives E streams ds ->
  forall a, range_Streams E streams a = Returns (a ++ concat ds).
Proof.
  induction 1 as [|s d streams ds Hd _ IH]; intros a; simpl.
  - now rewrite app_nil_r.
  - rewrite Hd, IH. now rewrite app_assoc.
Qed.

(** What [Transcode] hands to the launcher, when it gets that far. *)
Lemma Transcode_args_inv (E : Env) path start length args :
  Transcode_args E path start length = Returns (inl args) ->
  exists streams ds,
    ffprobe_Run E path = inl streams /\ directives E streams ds
    /\ args =
       ["ffmpeg"; "-threads"; Itoa (NumCPU E); "-async"; "1";
        "-ss"; FormatDurationSexagesimal E start]
       ++ t_flag E (0 <=? length) length ++ ["-i"; path]
       ++ concat ds ++ ["-f"; "mpegts"; "pipe:"].
Proof.
  unfold Transcode_args.
  destruct (ffprobe_Run E path) as [streams|err]; [|discriminate].
  destruct (range_Streams E streams _) as [r|] eqn:Hr; [|discriminate].
  intros [= <-]. apply range_Streams_inv in Hr as [ds [Hds ->]].
  exists streams, ds. repeat split; [exact Hds|].
  unfold t_flag. destruct (0 <=? length); simpl; now rewrite <- ?app_assoc.
Qed.

(** [Transcode] gets that far whenever the probe succeeds and every probed
    stream gets a directive. *)
Lemma Transcode_args_complete (E : Env) path start length streams ds :
  ffprobe_Run E path = inl streams -> directives E streams ds ->
  exists args, Transcode_args E path start length = Returns (inl args).
Proof.
  intros Hp Hds. unfold Transcode_args. rewrite Hp.
  rewrite (range_Streams_complete E streams ds Hds). eauto.
Qed.

Ltac other_token H :=
  simpl in H;
  repeat (destruct H as [H|H];
          [ first [ discriminate H
                  | now apply Itoa_not_t_flag in H
                  | congruence ] |]);
  try contradiction.

Lemma directives_functional (E : Env) streams ds :
  directives E streams ds ->
  forall ds', directives E streams ds' -> ds' = ds.
Proof.
  induction 1 as [|s d streams ds Hd _ IH]; intros ds' H'; inversion H'; subst.
  - reflexivity.
  - f_equal; [congruence | now apply IH].
Qed.

(** C2. Around the length flag the vector of each profile is fixed: it is a
    prefix and a suffix that do not depend on [length], with -t and the length
    timestamp between them exactly when [length >= 0] for profile A and
    exactly when [length > 0] for profiles B, C and D.  Hence, the source path
    and the start timestamp not being the token -t themselves, -t occurs in
    the vector of A exactly when [length >= 0] and in those of B, C and D
    exactly when [length > 0]; with [length = 0] profile A carries -t followed
    by the timestamp of the zero duration and the other three carry no -t. *)
Theorem C2_length_flag (E : Env) (path : string) (start : Z) :
  (exists pre post, forall length args,
     Transcode_args E path start length = Returns (inl args) ->
     args = pre ++ t_flag E (0 <=? length) length ++ post)
  /\ (exists pre post, forall length,
        VP8Transcode_args E path start length
        = pre ++ t_flag E (0 <? length) length ++ post)
  /\ (exists pre post, forall length,
        ChromecastTranscode_args E path start length
        = pre ++ t_flag E (0 <? length) length ++ post)
  /\ (exists pre post, forall length,
        WebTranscode_args E path start length
        = pre ++ t_flag E (0 <? length) length ++ post)
  /\ (path <> "-t" -> FormatDurationSexagesimal E start <> "-t" ->
      forall length,
        (forall args,
           Transcode_args E path start length = Returns (inl args) ->
           (In "-t" args <-> 0 <= length))
        /\ (In "-t" (VP8Transcode_args E path start length) <-> 0 < length)
        /\ (In "-t" (ChromecastTranscode_args E path start length)
            <-> 0 < length)
        /\ (In "-t" (WebTranscode_args E path start length) <-> 0 < length))
  /\ (forall args,
        Transcode_args E path start 0 = Returns (inl args) ->
        exists post,
          args =
          ["ffmpeg"; "-threads"; Itoa (NumCPU E); "-async"; "1";
           "-ss"; FormatDurationSexagesimal E start;
           "-t"; FormatDurationSexagesimal E 0; "-i"; path] ++ post)
  /\ (path <> "-t" -> FormatDurationSexagesimal E start <> "-t" ->
      ~ In "-t" (VP8Transcode_args E path start 0)
      /\ ~ In "-t" (ChromecastTranscode_args E path start 0)
      /\ ~ In "-t" (WebTranscode_args E path start 0)).
Proof.
  assert (Hiff : path <> "-t" -> FormatDurationSexagesimal E start <> "-t" ->
            forall len,
              (In "-t" (VP8Transcode_args E path start len) <-> 0 < len)
              /\ (In "-t" (ChromecastTranscode_args E path start len)
                  <-> 0 < len)
              /\ (In "-t" (WebTranscode_args E path start len) <-> 0 < len)).
  { intros Hpath Hstart len.
    unfold VP8Transcode_args, ChromecastTranscode_args, WebTranscode_args.
    destruct (Z.ltb_spec 0 len) as [Hl|Hl]; simpl; repeat split; intros H;
      try assumption; try tauto; try lia; other_token H. }
  split; [|split; [|split; [|split; [|split; [|split]]]]].
  - destruct (ffprobe_Run E path) as [streams|err] eqn:Hp.
    + destruct (range_Streams E streams []) as [r|] eqn:Hr.
      * apply range_Streams_inv in Hr as [ds0 [Hds0 _]].
        exists ["ffmpeg"; "-threads"; Itoa (NumCPU E); "-async"; "1";
                "-ss"; FormatDurationSexagesimal E start],
               (["-i"; path] ++ concat ds0 ++ ["-f"; "mpegts"; "pipe:"]).
        intros length args Ha.
        apply Transcode_args_inv in Ha as [streams' [ds [Hp' [Hds ->]]]].
        assert (streams' = streams) as -> by congruence.
        rewrite (directives_functional E streams ds0 Hds0 ds Hds).
        reflexivity.
      * exists [], []. intros length args Ha.
        apply Transcode_args_inv in Ha as [streams' [ds [Hp' [Hds _]]]].
        assert (streams' = streams) as -> by congruence.
        rewrite (range_Streams_complete E streams ds Hds) in Hr.
        discriminate Hr.
    + exists [], []. intros length args Ha.
      apply Transcode_args_inv in Ha as [streams' [ds [Hp' _]]]. congruence.
  - exists ["avconv"; "-threads"; Itoa (NumCPU E); "-async"; "1";
            "-ss"; FormatDurationSexagesimal E start],
           ["-i"; path; "-f"; "webm"; "pipe:"].
    intros length. unfold VP8Transcode_args, t_flag.
    destruct (0 <? length); reflexivity.
  - exists ["ffmpeg"; "-ss"; FormatDurationSexagesimal E start; "-i"; path;
            "-c:v"; "libx264"; "-preset"; "ultrafast"; "-profile:v"; "high";
            "-level"; "5.0";
            "-movflags"; "+faststart+frag_keyframe+empty_moov"],
           ["-f"; "mp4"; "pipe:"].
    intros length. unfold ChromecastTranscode_args, t_flag.
    destruct (0 <? length); reflexivity.
  - exists ["ffmpeg"; "-ss"; FormatDurationSexagesimal E start; "-i"; path;
            "-pix_fmt"; "yuv420p"; "-c:v"; "libx264"; "-crf"; "25";
            "-c:a"; "mp3"; "-ab"; "128k"; "-ar"; "44100";
            "-preset"; "ultrafast";
            "-movflags"; "+faststart+frag_keyframe+empty_moov"],
           ["-f"; "mp4"; "pipe:"].
    intros length. unfold WebTranscode_args, t_flag.
    destruct (0 <? length); reflexivity.
  - intros Hpath Hstart length. split; [|now apply Hiff].
    intros args Ha.
    apply Transcode_args_inv in Ha as [streams [ds [_ [Hds ->]]]].
    apply directives_no_t_flag in Hds. unfold t_flag.
    destruct (Z.leb_spec 0 length) as [Hl|Hl]; split; intros H;
      try assumption; try lia.
    + simpl. tauto.
    + exfalso. simpl in H.
      repeat (destruct H as [H|H];
              [ first [ discriminate H | now apply Itoa_not_t_flag in H
                      | congruence ] |]).
      apply in_app_or in H as [H|H]; [tauto | other_token H].
  - intros args Ha.
    apply Transcode_args_inv in Ha as [streams [ds [_ [_ ->]]]].
    eexists. reflexivity.
  - intros Hpath Hstart.
    destruct (Hiff Hpath Hstart 0) as (HB & HC & HD).
    rewrite HB, HC, HD. lia.
Qed.

(** A zero length on a file with a video and a dca stream. *)
Lemma C2_length_flag_witness :
  exists args,
    Transcode_args sample_host "a.mkv" 0 0 = Returns (inl args)
    /\ (In "-t" args <-> 0 <= 0)
    /\ ~ In "-t" (VP8Transcode_args sample_host "a.mkv" 0 0).
Proof.
  assert (Hpath : "a.mkv" <> "-t") by discriminate.
  assert (Hstart : FormatDurationSexagesimal sample_host 0 <> "-t")
    by discriminate.
  pose proof (C2_length_flag sample_host "a.mkv" 0)
    as (_ & _ & _ & _ & Hin & _ & Hzero).
  eexists. split; [reflexivity | split].
  - apply (proj1 (Hin Hpath Hstart 0)). reflexivity.
  - apply (Hzero Hpath Hstart).
Defined.

Lemma precedes_intro (x y : string) (a b c : list string) :
  precedes x y (a ++ x :: b ++ y :: c).
Proof. exists a, b, c. reflexivity. Qed.

Lemma precedesb_complete (x y : string) (l : list string) :
  precedes x y l -> precedesb x y l = true.
Proof.
  intros (a & b & c & ->). induction a as [|h a IH]; simpl.
  - rewrite String.eqb_refl, existsb_app. simpl.
    now rewrite String.eqb_refl, !orb_true_r.
  - now rewrite IH, orb_true_r.
Qed.

(** C7 (as the code behaves). Profiles A and B build the vector in the order
    encoder binary, global flags, -ss with the start timestamp, -t with the
    length timestamp when included, -i with the source path, the per-stream
    directives (profile A only), the output format, the pipe target; there -t,
    when included, precedes -i.  Profiles C and D build it in the order
    encoder binary, -ss with the start timestamp, -i with the source path, the
    fixed encoding flags, -t with the length timestamp when included, the
    output format, the pipe target; there -t, when included, follows -i. *)
Theorem C7_profile_shapes (E : Env) (path : string) (start length : Z) :
  (forall args,
     Transcode_args E path start length = Returns (inl args) ->
     exists streams ds,
       ffprobe_Run E path = inl streams /\ directives E streams ds
       /\ args =
          ["ffmpeg"] ++ ["-threads"; Itoa (NumCPU E); "-async"; "1"]
          ++ ["-ss"; FormatDurationSexagesimal E start]
          ++ t_flag E (0 <=? length) length
          ++ ["-i"; path]
          ++ concat ds
          ++ ["-f"; "mpegts"] ++ ["pipe:"])
  /\ VP8Transcode_args E path start length =
     ["avconv"] ++ ["-threads"; Itoa (NumCPU E); "-async"; "1"]
     ++ ["-ss"; FormatDurationSexagesimal E start]
     ++ t_flag E (0 <? length) length
     ++ ["-i"; path]
     ++ ["-f"; "webm"] ++ ["pipe:"]
  /\ ChromecastTranscode_args E path start length =
     ["ffmpeg"]
     ++ ["-ss"; FormatDurationSexagesimal E start]
     ++ ["-i"; path]
     ++ ["-c:v"; "libx264"; "-preset"; "ultrafast"; "-profile:v"; "high";
         "-level"; "5.0"; "-movflags"; "+faststart+frag_keyframe+empty_moov"]
     ++ t_flag E (0 <? length) length
     ++ ["-f"; "mp4"] ++ ["pipe:"]
  /\ WebTranscode_args E path start length =
     ["ffmpeg"]
     ++ ["-ss"; FormatDurationSexagesimal E start]
     ++ ["-i"; path]
     ++ ["-pix_fmt"; "yuv420p"; "-c:v"; "libx264"; "-crf"; "25";
         "-c:a"; "mp3"; "-ab"; "128k"; "-ar"; "44100";
         "-preset"; "ultrafast";
         "-movflags"; "+faststart+frag_keyframe+empty_moov"]
     ++ t_flag E (0 <? length) length
     ++ ["-f"; "mp4"] ++ ["pipe:"]
  /\ (0 <= length ->
      forall args,
        Transcode_args E path start length = Returns (inl args) ->
        precedes "-t" "-i" args)
  /\ (0 < length ->
      precedes "-t" "-i" (VP8Transcode_args E path start length)
      /\ precedes "-i" "-t" (ChromecastTranscode_args E path start length)
      /\ precedes "-i" "-t" (WebTranscode_args E path start length)).
Proof.
  split; [|split; [|split; [|split; [|split]]]].
  - intros args Ha.
    apply Transcode_args_inv in Ha as [streams [ds [Hp [Hds ->]]]].
    exists streams, ds. split; [exact Hp | split; [exact Hds|]].
    reflexivity.
  - unfold VP8Transcode_args, t_flag. now destruct (0 <? length).
  - unfold ChromecastTranscode_args, t_flag. now destruct (0 <? length).
  - unfold WebTranscode_args, t_flag. now destruct (0 <? length).
  - intros Hl args Ha.
    apply Transcode_args_inv in Ha as [streams [ds [_ [_ ->]]]].
    apply Z.leb_le in Hl. rewrite Hl. simpl.
    apply (precedes_intro "-t" "-i"
             ["ffmpeg"; "-threads"; Itoa (NumCPU E); "-async"; "1"; "-ss";
              FormatDurationSexagesimal E start]
             [FormatDurationSexagesimal E length]).
  - intros Hl. apply Z.ltb_lt in Hl.
    unfold VP8Transcode_args, ChromecastTranscode_args, WebTranscode_args.
    rewrite Hl. simpl. repeat split.
    + apply (precedes_intro "-t" "-i"
               ["avconv"; "-threads"; Itoa (NumCPU E); "-async"; "1"; "-ss";
                FormatDurationSexagesimal E start]
               [FormatDurationSexagesimal E length]).
    + apply (precedes_intro "-i" "-t"
               ["ffmpeg"; "-ss"; FormatDurationSexagesimal E start]
               [path; "-c:v"; "libx264"; "-preset"; "ultrafast";
                "-profile:v"; "high"; "-level"; "5.0"; "-movflags";
                "+faststart+frag_keyframe+empty_moov"]).
    + apply (precedes_intro "-i" "-t"
               ["ffmpeg"; "-ss"; FormatDurationSexagesimal E start]
               [path; "-pix_fmt"; "yuv420p"; "-c:v"; "libx264"; "-crf"; "25";
                "-c:a"; "mp3"; "-ab"; "128k"; "-ar"; "44100";
                "-preset"; "ultrafast"; "-movflags";
                "+faststart+frag_keyframe+empty_moov"]).
Qed.

(** A one-nanosecond window: -t precedes -i for profile B and follows it for
    profile C. *)
Lemma C7_profile_shapes_witness :
  precedes "-t" "-i" (VP8Transcode_args sample_host "a.mkv" 0 1)
  /\ precedes "-i" "-t" (ChromecastTranscode_args sample_host "a.mkv" 0 1)
  /\ precedes "-i" "-t" (WebTranscode_args sample_host "a.mkv" 0 1).
Proof.
  apply (C7_profile_shapes sample_host "a.mkv" 0 1). lia.
Defined.

(** C7 as stated fails: profile C includes -t for a positive length, and no
    occurrence of -t comes before an occurrence of -i in its vector, where the
    start timestamp is followed at once by -i and the encoding flags stand
    between the source path and -t. *)
Lemma C7_profile_shapes_counterexample :
  In "-t" (ChromecastTranscode_args sample_host "a.mkv" 0 1)
  /\ ~ precedes "-t" "-i" (ChromecastTranscode_args sample_host "a.mkv" 0 1)
  /\ ChromecastTranscode_args sample_host "a.mkv" 0 1 =
     ["ffmpeg"; "-ss"; "0"; "-i"; "a.mkv"; "-c:v"; "libx264"; "-preset";
      "ultrafast"; "-profile:v"; "high"; "-level"; "5.0"; "-movflags";
      "+faststart+frag_keyframe+empty_moov"; "-t"; "1"; "-f"; "mp4"; "pipe:"].
Proof.
  split; [|split; [|reflexivity]].
  - vm_compute. tauto.
  - intros H. apply precedesb_complete in H. vm_compute in H. discriminate H.
Qed.

(** * Further properties of the tokenizer *)

Lemma loop_app (a b : string) : forall v, loop (a +:+ b) v = loop b (loop a v).
Proof.
  induction a as [|c a IH]; intros v; [reflexivity | exact (IH (step c v))].
Qed.

Lemma append_eq_nil (a b : string) : a +:+ b = "" -> a = "" /\ b = "".
Proof. destruct a; [intros H; split; [reflexivity | exact H] | discriminate]. Qed.

Lemma utf8_ascii_only (w : string) : ascii_only w = true -> utf8 w = w.
Proof.
  induction w as [|c w IH]; [reflexivity|]. simpl. intros H.
  apply andb_prop in H as [Hc Hw]. unfold is_high in Hc.
  apply negb_true_iff, negb_false_iff in Hc.
  unfold string_of_byte. rewrite Hc. exact (f_equal (String c) (IH Hw)).
Qed.

Lemma utf8_nonempty (w : string) : w <> "" -> utf8 w <> "".
Proof.
  destruct w as [|c w]; [congruence|]. intros _ H. simpl in H.
  apply append_eq_nil in H as [H _]. now apply string_of_byte_nonempty in H.
Qed.

Lemma length_append (a b : string) :
  String.length (a +:+ b) = (String.length a + String.length b)%nat.
Proof.
  induction a as [|c a IH]; [reflexivity|].
  change (S (String.length (a +:+ b)) = S (String.length a + String.length b)).
  now rewrite IH.
Qed.

Lemma is_plain_inv (c : ascii) :
  is_plain c = true ->
  is_blank c = false /\ is_quote_char c = false /\ Ascii.eqb c backslash = false.
Proof.
  unfold is_plain. intros H.
  apply andb_prop in H as [H H3]. apply andb_prop in H as [H1 H2].
  now rewrite negb_true_iff in H1, H2, H3.
Qed.

Lemma is_blank_inv (c : ascii) :
  is_blank c = true ->
  is_quote_char c = false /\ Ascii.eqb c backslash = false.
Proof.
  unfold is_blank. intros H.
  apply orb_prop in H as [H|H]; apply Ascii.eqb_eq in H; subst c; now split.
Qed.

(** One step on a plain byte outside a quoted section, no escape pending. *)
Lemma step_plain (c : ascii) (v : vars) :
  is_plain c = true -> state v <> Quotes -> escapeNext v = false ->
  step c v = pushed v Arg (string_of_byte c) false.
Proof.
  intros Hc Hs He. apply is_plain_inv in Hc as (Hb & Hq & Hk).
  unfold step, pushed. rewrite He, Hb, Hq, Hk.
  destruct (state v); [reflexivity | reflexivity | congruence].
Qed.

(** One step on a blank while an unquoted token is accumulated. *)
Lemma step_blank_arg (c : ascii) (v : vars) :
  is_blank c = true -> state v = Arg -> escapeNext v = false ->
  step c v = emitted v (quote v) false.
Proof.
  intros Hc Hs He. destruct (is_blank_inv c Hc) as (Hq & Hk).
  unfold step, emitted. now rewrite Hs, He, Hc, Hq, Hk.
Qed.

(** One step on a blank between tokens: nothing changes, not even when a
    token is pending. *)
Lemma step_blank_start (c : ascii) (v : vars) :
  is_blank c = true -> state v = Tokenizer.Start -> escapeNext v = false ->
  step c v = v.
Proof.
  intros Hc Hs He. destruct (is_blank_inv c Hc) as (Hq & Hk).
  unfold step. now rewrite Hs, He, Hc, Hq, Hk.
Qed.

Lemma loop_plain (w : string) :
  forall v,
    plain w = true -> w <> "" -> state v <> Quotes -> escapeNext v = false ->
    loop w v = pushed v Arg (utf8 w) false.
Proof.
  induction w as [|c w IH]; intros v Hp Hne Hs He; [congruence|].
  simpl in Hp. apply andb_prop in Hp as [Hc Hw].
  simpl loop. rewrite (step_plain c v Hc Hs He).
  destruct w as [|c' w].
  - simpl. unfold pushed. simpl. now rewrite append_nil_r.
  - rewrite IH; [|exact Hw | discriminate | discriminate | reflexivity].
    unfold pushed. simpl args. simpl current. simpl quote.
    now rewrite append_assoc.
Qed.

Lemma loop_plain_any (w : string) (v : vars) :
  plain w = true -> state v = Arg -> escapeNext v = false ->
  loop w v = pushed v Arg (utf8 w) false.
Proof.
  intros Hp Hs He. destruct w as [|c w].
  - destruct v. simpl in *. subst. unfold pushed. simpl.
    now rewrite append_nil_r.
  - apply loop_plain; [exact Hp | discriminate | congruence | exact He].
Qed.

Lemma word_inv (w : string) : word w = true -> plain w = true /\ w <> "".
Proof.
  unfold word. intros H. apply andb_prop in H as [Hp Hn].
  split; [exact Hp|]. apply negb_true_iff in Hn. now apply String.eqb_neq.
Qed.

(** The loop over words joined by single spaces: every word but the last is
    emitted, the last one is pending. *)
Lemma loop_join_words (ws : list string) :
  forall w v,
    plain w = true -> w <> "" -> forallb word ws = true ->
    state v <> Quotes -> escapeNext v = false ->
    exists v',
      loop (join_words (w :: ws)) v = v'
      /\ state v' = Arg /\ escapeNext v' = false /\ current v' <> ""
      /\ args v' ++ [current v']
         = args v ++ (current v +:+ utf8 w) :: map utf8 ws.
Proof.
  induction ws as [|w2 ws IH]; intros w v Hp Hne Hws Hs He.
  - exists (pushed v Arg (utf8 w) false). simpl join_words.
    rewrite (loop_plain w v Hp Hne Hs He). repeat split.
    simpl. intros H. apply append_eq_nil in H as [_ H].
    now apply utf8_nonempty in H.
  - simpl in Hws. apply andb_prop in Hws as [Hw2 Hws].
    apply word_inv in Hw2 as [Hp2 Hne2].
    change (join_words (w :: w2 :: ws))
      with (w +:+ String space (join_words (w2 :: ws))).
    rewrite loop_app, (loop_plain w v Hp Hne Hs He). simpl loop.
    rewrite step_blank_arg; [|reflexivity | reflexivity | reflexivity].
    destruct (IH w2 (emitted (pushed v Arg (utf8 w) false) (quote v) false)
                 Hp2 Hne2 Hws) as (v' & Hl & Hst & Hes & Hcur & Hargs);
      [discriminate | reflexivity|].
    exists v'. repeat split; try assumption.
    rewrite Hargs. simpl. now rewrite <- app_assoc.
Qed.

Lemma finish_pending (command : string) (v : vars) :
  state v <> Quotes -> current v <> "" ->
  finish command v = (args v ++ [current v], None).
Proof.
  intros Hs Hc. unfold finish. apply String.eqb_neq in Hc. rewrite Hc.
  destruct (state v); [reflexivity | reflexivity | congruence].
Qed.

Lemma finish_empty (command : string) (v : vars) :
  state v <> Quotes -> current v = "" -> finish command v = (args v, None).
Proof.
  intros Hs Hc. unfold finish. rewrite Hc.
  destruct (state v); [reflexivity | reflexivity | congruence].
Qed.

Lemma join_words_cons (c : ascii) (w : string) (ws : list string) :
  join_words (String c w :: ws) = String c (join_words (w :: ws)).
Proof. destruct ws; reflexivity. Qed.

Lemma map_utf8_ascii_only (ws : list string) :
  forallb ascii_only ws = true -> map utf8 ws = ws.
Proof.
  induction ws as [|w ws IH]; [reflexivity|]. simpl. intros H.
  apply andb_prop in H as [Hw Hws].
  now rewrite (utf8_ascii_only w Hw), (IH Hws).
Qed.

(** The tokens of a command made of words. *)
Lemma parse_words (c : ascii) (w : string) (ws : list string) :
  plain w = true -> forallb word ws = true -> w <> "" \/ ws = [] ->
  parseCommandLine (join_words (String c w :: ws))
  = (utf8 (String c w) :: map utf8 ws, None).
Proof.
  intros Hp Hws Hsep. unfold parseCommandLine at 1.
  rewrite join_words_cons.
  change (loop (String c (join_words (w :: ws))) init)
    with (loop (join_words (w :: ws)) (after_first c)).
  destruct w as [|c' w].
  - destruct Hsep as [?| ->]; [congruence|]. simpl loop.
    rewrite finish_pending;
      [|discriminate | apply string_of_byte_nonempty].
    simpl. now rewrite append_nil_r.
  - destruct (loop_join_words ws (String c' w) (after_first c) Hp)
      as (v' & Hl & Hst & Hes & Hcur & Hargs);
      [discriminate | exact Hws | discriminate | reflexivity|].
    rewrite Hl, finish_pending; [|congruence | exact Hcur].
    now rewrite Hargs.
Qed.

(** X1. Splitting undoes joining: a command made of non-empty words of plain
    bytes (no blank, quote character or backslash), separated by single
    spaces, whose first word has at least two bytes unless it is the only
    one, tokenizes without error to the words, each byte passed through
    [string(c)]; when all bytes are below 0x80 the tokens are the words
    themselves. *)
Theorem X1_words_round_trip (w1 : string) (ws : list string) :
  forallb word (w1 :: ws) = true ->
  (2 <= String.length w1)%nat \/ ws = [] ->
  parseCommandLine (join_words (w1 :: ws)) = (map utf8 (w1 :: ws), None)
  /\ (forallb ascii_only (w1 :: ws) = true ->
      parseCommandLine (join_words (w1 :: ws)) = (w1 :: ws, None)).
Proof.
  intros Hws Hlen. simpl in Hws. apply andb_prop in Hws as [Hw1 Hws].
  apply word_inv in Hw1 as [Hp1 Hne1].
  destruct w1 as [|c w]; [congruence|].
  simpl in Hp1. apply andb_prop in Hp1 as [_ Hp].
  assert (Hsep : w <> "" \/ ws = []).
  { destruct Hlen as [Hl|Hl]; [left | now right].
    destruct w; [simpl in Hl; lia | discriminate]. }
  split.
  - now apply parse_words.
  - intros Ha. rewrite parse_words by assumption.
    change (utf8 (String c w) :: map utf8 ws) with (map utf8 (String c w :: ws)).
    now rewrite map_utf8_ascii_only.
Qed.

Lemma X1_words_round_trip_witness :
  parseCommandLine "ffmpeg -i a.mkv pipe:"
  = (["ffmpeg"; "-i"; "a.mkv"; "pipe:"], None).
Proof.
  apply (proj2 (X1_words_round_trip "ffmpeg" ["-i"; "a.mkv"; "pipe:"]
                  eq_refl (or_introl (le_S _ _ (le_S _ _ (le_S _ _
                     (le_S _ _ (le_n 2)))))))).
  reflexivity.
Defined.

Lemma length_utf8 (w : string) :
  String.length (utf8 w) = (String.length w + high_bytes w)%nat.
Proof.
  induction w as [|c w IH]; [reflexivity|].
  simpl utf8. rewrite length_append, IH. simpl.
  unfold string_of_byte, is_high.
  destruct (Z.of_N (N_of_ascii c) <? 128); simpl; lia.
Qed.

(** X2. The tokenizer does not preserve bytes from 0x80 on: a one-word command
    (any first byte, then plain bytes) gives one token in which each of those
    bytes has become two, so that the token is longer than the word by their
    number and differs from it as soon as there is one. *)
Theorem X2_high_bytes_reencoded (c : ascii) (w : string) :
  plain w = true ->
  parseCommandLine (String c w) = ([utf8 (String c w)], None)
  /\ String.length (utf8 (String c w))
     = (String.length (String c w) + high_bytes (String c w))%nat
  /\ ((0 < high_bytes (String c w))%nat -> utf8 (String c w) <> String c w).
Proof.
  intros Hp. split; [|split].
  - apply (parse_words c w [] Hp eq_refl). now right.
  - apply length_utf8.
  - intros Hh Heq. apply (f_equal String.length) in Heq.
    rewrite length_utf8 in Heq. lia.
Qed.

(** The two bytes of a UTF-8 e with acute accent come back as four. *)
Lemma X2_high_bytes_reencoded_witness :
  parseCommandLine (String (ascii_of_nat 195) (String (ascii_of_nat 169) ""))
  = ([String (ascii_of_nat 195) (String (ascii_of_nat 131)
       (String (ascii_of_nat 194) (String (ascii_of_nat 169) "")))], None).
Proof.
  apply (proj1 (X2_high_bytes_reencoded (ascii_of_nat 195)
                  (String (ascii_of_nat 169) "") eq_refl)).
Defined.

Lemma loop_blanks_start (bs : string) :
  forall v,
    all_blank bs = true -> state v = Tokenizer.Start -> escapeNext v = false ->
    loop bs v = v.
Proof.
  induction bs as [|b bs IH]; intros v Hb Hs He; [reflexivity|].
  simpl in Hb. apply andb_prop in Hb as [Hb Hbs].
  simpl. rewrite (step_blank_start b v Hb Hs He). now apply IH.
Qed.

Lemma fst_finish (c1 c2 : string) (v : vars) :
  fst (finish c1 v) = fst (finish c2 v).
Proof. unfold finish. destruct (state v); reflexivity. Qed.

(** X3. Blanks that directly follow the first byte of a command separate
    nothing: the first byte leaves the tokenizer between tokens with the byte
    pending, where blanks are skipped, so the command tokenizes like the one
    without those blanks and the first byte becomes part of the token that
    follows. *)
Theorem X3_blanks_after_first_byte (c : ascii) (bs rest : string) :
  all_blank bs = true ->
  loop (String c (bs +:+ rest)) init = loop (String c rest) init
  /\ fst (parseCommandLine (String c (bs +:+ rest)))
     = fst (parseCommandLine (String c rest))
  /\ (snd (parseCommandLine (String c (bs +:+ rest))) = None <->
      snd (parseCommandLine (String c rest)) = None).
Proof.
  intros Hb.
  assert (Hl : loop (String c (bs +:+ rest)) init = loop (String c rest) init).
  { simpl loop. rewrite step_init, loop_app.
    now rewrite (loop_blanks_start bs (after_first c) Hb). }
  split; [exact Hl | split].
  - unfold parseCommandLine. rewrite Hl. apply fst_finish.
  - unfold parseCommandLine. rewrite !finish_error_iff, Hl. reflexivity.
Qed.

(** The one-byte word a and the word b come out as the single token ab. *)
Lemma X3_blanks_after_first_byte_witness :
  fst (parseCommandLine "a b") = ["ab"].
Proof.
  exact (eq_trans
           (proj1 (proj2 (X3_blanks_after_first_byte "a"%char " " "b" eq_refl)))
           eq_refl).
Defined.

Lemma string_of_byte_quote (q c : ascii) :
  is_quote_char q = true ->
  String.eqb (string_of_byte c) (string_of_byte q) = Ascii.eqb c q.
Proof.
  intros Hq.
  assert (Hs : string_of_byte q = String q "").
  { unfold is_quote_char in Hq. apply orb_prop in Hq as [Hq|Hq];
      apply Ascii.eqb_eq in Hq; subst q; reflexivity. }
  destruct (Ascii.eqb_spec c q) as [->|Hne]; [apply String.eqb_refl|].
  apply String.eqb_neq. rewrite Hs. unfold string_of_byte.
  destruct (Z.of_N (N_of_ascii c) <? 128); intros H; inversion H; congruence.
Qed.

(** One step on an unescaped quote character outside a quoted section. *)
Lemma step_open_quote (q : ascii) (v : vars) :
  is_quote_char q = true -> state v <> Quotes -> escapeNext v = false ->
  step q v =
  {| args := args v; state := Quotes; current := current v;
     quote := string_of_byte q; escapeNext := false |}.
Proof.
  intros Hq Hs He. unfold step. rewrite He, Hq.
  assert (Hb : Ascii.eqb q backslash = false).
  { unfold is_quote_char in Hq. apply orb_prop in Hq as [Hq|Hq];
      apply Ascii.eqb_eq in Hq; subst q; reflexivity. }
  rewrite Hb. destruct (state v); congruence.
Qed.

(** The loop inside a section opened by [q], over bytes other than [q]. *)
Lemma loop_quoted (q : ascii) (body : string) :
  forall v,
    is_quote_char q = true -> absent q body = true ->
    state v = Quotes -> quote v = string_of_byte q ->
    loop body v = pushed v Quotes (utf8 body) (escapeNext v).
Proof.
  induction body as [|c body IH]; intros v Hq Ha Hs Hqv.
  - destruct v. simpl in *. subst. unfold pushed. simpl.
    now rewrite append_nil_r.
  - simpl in Ha. apply andb_prop in Ha as [Hc Ha]. apply negb_true_iff in Hc.
    simpl loop.
    assert (Hstep : step c v = pushed v Quotes (string_of_byte c) (escapeNext v)).
    { unfold step, pushed.
      now rewrite Hs, Hqv, (string_of_byte_quote q c Hq), Hc. }
    rewrite Hstep, IH; [|exact Hq | exact Ha | reflexivity | exact Hqv].
    unfold pushed. simpl. now rewrite append_assoc.
Qed.

(** A whole quoted section, from the opening to the closing [q]. *)
Lemma loop_quoted_section (q : ascii) (body rest : string) (v : vars) :
  is_quote_char q = true -> absent q body = true ->
  state v <> Quotes -> escapeNext v = false ->
  loop (String q (body +:+ String q rest)) v
  = loop rest
      {| args := args v ++ [current v +:+ utf8 body];
         state := Tokenizer.Start; current := "";
         quote := string_of_byte q; escapeNext := false |}.
Proof.
  intros Hq Ha Hs He. simpl loop.
  rewrite (step_open_quote q v Hq Hs He), loop_app.
  rewrite (loop_quoted q body);
    [|exact Hq | exact Ha | reflexivity | reflexivity].
  simpl loop. f_equal. unfold step, pushed. simpl.
  now rewrite (string_of_byte_quote q q Hq), Ascii.eqb_refl.
Qed.

(** X4. A quoted section is one token taken verbatim.  After a command prefix
    that ends outside a quoted section with no escape pending, a quote
    character, a body without that character and the same quote character
    again close one token: the unquoted text pending before the section
    followed by the body, in which blanks, backslashes and the other quote
    character are kept as they are. *)
Theorem X4_quoted_section (pre : string) (q : ascii) (body : string) :
  state (loop pre init) <> Quotes -> escapeNext (loop pre init) = false ->
  is_quote_char q = true -> absent q body = true ->
  parseCommandLine (pre +:+ String q (body +:+ String q ""))
  = (args (loop pre init) ++ [current (loop pre init) +:+ utf8 body], None).
Proof.
  intros Hs He Hq Ha. unfold parseCommandLine.
  rewrite loop_app, (loop_quoted_section q body "" _ Hq Ha Hs He).
  simpl loop. now rewrite finish_empty.
Qed.

(** A single-quoted body holding a blank, a backslash and a double quote. *)
Lemma X4_quoted_section_witness :
  parseCommandLine
    ("sh -c " +:+
     String squote ("a " +:+ String backslash (String dquote "b")
                    +:+ String squote ""))
  = (["sh"; "-c"; "a " +:+ String backslash (String dquote "b")], None).
Proof.
  apply (X4_quoted_section "sh -c " squote
           ("a " +:+ String backslash (String dquote "b")));
    [discriminate | reflexivity | reflexivity | reflexivity].
Defined.

(** X5. An unclosed quote is an error and launches nothing.  After a command
    prefix that ends outside a quoted section with no escape pending, a quote
    character that is not repeated before the end makes the tokenizer return
    no token and the unclosed-quote error carrying the whole command, and
    [Exec] returns that error with no stream, without logging or launching
    anything. *)
Theorem X5_unclosed_quote (E : Env) (pre : string) (q : ascii) (body : string)
    (start length : Z) (stderr : Writer) :
  state (loop pre init) <> Quotes -> escapeNext (loop pre init) = false ->
  is_quote_char q = true -> absent q body = true ->
  let command := pre +:+ String q body in
  parseCommandLine command
  = ([], Some ("Unclosed quote in command line: " +:+ command))
  /\ Exec E command start length stderr
     = ([], Returns
              (None, Some ("Unclosed quote in command line: " +:+ command))).
Proof.
  intros Hs He Hq Ha command.
  assert (Hp : parseCommandLine command
               = ([], Some ("Unclosed quote in command line: " +:+ command))).
  { unfold parseCommandLine, command. rewrite loop_app. simpl loop.
    rewrite (step_open_quote q _ Hq Hs He).
    rewrite (loop_quoted q body);
      [reflexivity | exact Hq | exact Ha | reflexivity | reflexivity]. }
  split; [exact Hp|]. unfold Exec. now rewrite Hp.
Qed.

Lemma X5_unclosed_quote_witness :
  Exec sample_host ("foo " +:+ String dquote "bar") 0 (-1) 7%N
  = ([], Returns
           (None, Some ("Unclosed quote in command line: foo "
                        +:+ String dquote "bar"))).
Proof.
  apply (proj2 (X5_unclosed_quote sample_host "foo " dquote "bar" 0 (-1) 7%N
                  ltac:(discriminate) eq_refl eq_refl eq_refl)).
Defined.

(** X6. Backslashes outside quoted sections.  After a command prefix that ends
    outside a quoted section with no escape pending, a backslash followed by
    any byte appends that byte (through [string(c)]) to the pending token and
    changes nothing else: the byte neither separates, nor opens a quoted
    section, nor starts a token.  A backslash that ends the command is
    dropped: the command tokenizes like the one without it. *)
Theorem X6_backslash (pre : string) :
  state (loop pre init) <> Quotes -> escapeNext (loop pre init) = false ->
  (forall c rest,
     loop (pre +:+ String backslash (String c rest)) init
     = loop rest (pushed (loop pre init) (state (loop pre init))
                         (string_of_byte c) false))
  /\ parseCommandLine (pre +:+ String backslash "") = parseCommandLine pre.
Proof.
  intros Hs He.
  assert (Hb : step backslash (loop pre init)
               = pushed (loop pre init) (state (loop pre init)) "" true).
  { unfold step, pushed. rewrite He, append_nil_r.
    destruct (state (loop pre init)); [reflexivity | reflexivity | congruence]. }
  split.
  - intros c rest. rewrite loop_app. simpl loop. rewrite Hb. f_equal.
    unfold step, pushed. simpl. rewrite append_nil_r.
    destruct (state (loop pre init)); [reflexivity | reflexivity | congruence].
  - unfold parseCommandLine. rewrite loop_app. simpl loop. rewrite Hb.
    unfold finish, pushed. simpl. rewrite append_nil_r.
    destruct (state (loop pre init)); [reflexivity | reflexivity | congruence].
Qed.

(** An escaped blank stays inside its token; a final backslash vanishes. *)
Lemma X6_backslash_witness :
  parseCommandLine ("ab" +:+ String backslash " cd") = (["ab cd"], None)
  /\ parseCommandLine ("ab" +:+ String backslash "") = (["ab"], None).
Proof.
  pose proof (X6_backslash "ab" ltac:(discriminate) eq_refl) as [H1 H2].
  split.
  - unfold parseCommandLine. rewrite (H1 " "%char "cd"). reflexivity.
  - rewrite H2. reflexivity.
Defined.

Lemma held_bounds (v : vars) :
  (length (args v) <= held v <= length (args v) + 1)%nat.
Proof. unfold held. destruct (String.eqb (current v) ""); lia. Qed.

Lemma held_emitted (v : vars) q e : (held (emitted v q e) <= held v + 1)%nat.
Proof.
  pose proof (held_bounds v). unfold held at 1, emitted. simpl.
  rewrite length_app. simpl. lia.
Qed.

Lemma held_pushed (v : vars) st x e : (held (pushed v st x e) <= held v + 1)%nat.
Proof.
  pose proof (held_bounds v). pose proof (held_bounds (pushed v st x e)) as H'.
  simpl in H'. lia.
Qed.

Lemma held_step (c : ascii) (v : vars) : (held (step c v) <= held v + 1)%nat.
Proof.
  unfold step.
  destruct (state v);
    repeat match goal with
           | |- (held (if ?b then _ else _) <= _)%nat => destruct b
           end;
    first [ apply (held_emitted v)
          | apply (held_pushed v)
          | unfold held; simpl; lia ].
Qed.

Lemma held_loop (command : string) :
  forall v, (held (loop command v) <= held v + String.length command)%nat.
Proof.
  induction command as [|c rest IH]; intros v; simpl; [lia|].
  pose proof (IH (step c v)). pose proof (held_step c v). lia.
Qed.

(** X7. The tokenizer never returns more tokens than the command has bytes. *)
Theorem X7_token_count_bound (command : string) :
  (length (fst (parseCommandLine command)) <= String.length command)%nat.
Proof.
  unfold parseCommandLine. pose proof (held_loop command init) as H.
  change (held init) with O in H.
  unfold finish. unfold held in H.
  destruct (state (loop command init));
    try (destruct (String.eqb (current (loop command init)) ""); simpl;
         rewrite ?length_app; simpl; lia);
    simpl; lia.
Qed.

(** Launching a non-empty vector never panics. *)
Lemma transcodePipe_cons_returns (E : Env) name rest stderr :
  exists tr res, transcodePipe E (name :: rest) stderr = (tr, Returns res).
Proof.
  unfold transcodePipe. simpl.
  destruct (cmd_StdoutPipe E _); [destruct (cmd_Start E _)|]; simpl; eauto.
Qed.

(** X8. The empty command is the only one on which [Exec] panics: every
    non-empty command either fails to tokenize, and [Exec] returns the error,
    or yields at least one token, and the launcher finds its [args[0]]. *)
Theorem X8_Exec_panics_only_on_empty (E : Env) (cmds : string)
    (start length : Z) (stderr : Writer) :
  (exists tr p, Exec E cmds start length stderr = (tr, Panics p))
  <-> cmds = "".
Proof.
  split.
  - intros (tr & p & H). destruct cmds as [|c rest]; [reflexivity|].
    exfalso. unfold Exec in H.
    destruct (parseCommandLine (String c rest)) as [toks [err|]] eqn:Hp.
    + discriminate H.
    + unfold parseCommandLine in Hp. simpl loop in Hp. rewrite step_init in Hp.
      apply (finish_led_by (string_of_byte c)) in Hp as (t & ts & ->);
        [| apply string_of_byte_nonempty
         | apply loop_led_by, led_by_after_first].
      destruct (transcodePipe_cons_returns E (string_of_byte c +:+ t) ts stderr)
        as (tr' & res & Hr).
      rewrite Hr in H. discriminate H.
  - intros ->. exists [LogPrintln []], IndexOutOfRange. reflexivity.
Qed.

(** * Further properties of the policy, the builders and the entry points *)

(** The two ways [streamArgs] goes: no directive for an unknown codec type;
    otherwise the flags of the table, then the type assertion on the index. *)
Lemma streamArgs_cases (E : Env) (s : Stream) :
  (known_codec_type s = false /\ streamArgs E s = Returns [])
  \/ (known_codec_type s = true
      /\ exists flags,
           flags <> [] /\ ~ In "-map" flags
           /\ streamArgs E s =
              match map_index s "index" with
              | VFloat64 f =>
                  Returns (flags ++ ["-map"; "0:" +:+ Itoa (float64_to_int E f)])
              | _ => Panics InterfaceConversion
              end).
Proof.
  unfold known_codec_type, streamArgs, streamArgs_body.
  destruct (iface_eq_string (map_index s "codec_type") "video");
    [|destruct (iface_eq_string (map_index s "codec_type") "audio");
      [destruct (iface_eq_string (map_index s "codec_name") "dca")
      |destruct (iface_eq_string (map_index s "codec_type") "subtitle")]];
    simpl; try (left; split; reflexivity);
    right; (split; [reflexivity|]); eexists; (split; [|split; [|reflexivity]]);
    try discriminate;
    simpl; intros H; repeat (destruct H as [H|H]; [discriminate H|]); exact H.
Qed.

Lemma well_formed_returns (E : Env) (s : Stream) :
  well_formed s = true -> exists d, streamArgs E s = Returns d.
Proof.
  unfold well_formed. intros H.
  destruct (streamArgs_cases E s) as [[Hk Hr]|[Hk (flags & _ & _ & Hr)]];
    [eauto|].
  rewrite Hk in H. simpl in H. rewrite Hr.
  destruct (map_index s "index"); try discriminate; eauto.
Qed.

Lemma ill_formed_panics (E : Env) (s : Stream) :
  well_formed s = false -> streamArgs E s = Panics InterfaceConversion.
Proof.
  unfold well_formed. intros H.
  destruct (streamArgs_cases E s) as [[Hk Hr]|[Hk (flags & _ & _ & Hr)]].
  - rewrite Hk in H. discriminate.
  - rewrite Hk in H. simpl in H. rewrite Hr.
    destruct (map_index s "index"); try reflexivity; discriminate.
Qed.

Lemma range_Streams_well_formed (E : Env) (streams : list Stream) :
  forallb well_formed streams = true -> exists ds, directives E streams ds.
Proof.
  induction streams as [|s streams IH]; simpl; intros H.
  - exists []. constructor.
  - apply andb_prop in H as [Hs Hrest].
    destruct (well_formed_returns E s Hs) as [d Hd].
    destruct (IH Hrest) as [ds Hds]. exists (d :: ds). now constructor.
Qed.

Lemma range_Streams_ill_formed (E : Env) (streams : list Stream) :
  forall a,
    forallb well_formed streams = false ->
    range_Streams E streams a = Panics InterfaceConversion.
Proof.
  induction streams as [|s streams IH]; simpl; intros a H; [discriminate|].
  destruct (well_formed s) eqn:Hs.
  - destruct (well_formed_returns E s Hs) as [d Hd]. rewrite Hd.
    now apply IH.
  - now rewrite (ill_formed_panics E s Hs).
Qed.

Lemma directive_map_count (E : Env) (s : Stream) (d : list string) :
  streamArgs E s = Returns d ->
  count_occ string_dec d "-map" = (if known_codec_type s then 1 else 0)%nat
  /\ (d = [] <-> known_codec_type s = false).
Proof.
  intros Hd.
  destruct (streamArgs_cases E s) as [[Hk Hr]|[Hk (flags & Hne & Hin & Hr)]];
    rewrite Hr in Hd; rewrite Hk.
  - injection Hd as <-. split; [reflexivity | tauto].
  - destruct (map_index s "index"); try discriminate. injection Hd as <-.
    split.
    + rewrite count_occ_app, (proj1 (count_occ_not_In string_dec _ _) Hin).
      simpl.
      repeat match goal with
             | |- context [string_dec ?a ?b] =>
                 destruct (string_dec a b) as [e|e];
                 try discriminate e; try congruence
             end.
      reflexivity.
    + split; [|discriminate]. intros H. apply app_eq_nil in H as [_ H].
      discriminate H.
Qed.

(** X9. In the vector of profile A every probed stream whose codec type is
    video, audio or subtitle is selected by exactly one -map token and every
    other stream contributes nothing: the directives follow the order of the
    probed streams, a directive is empty exactly for a stream of another type,
    and the directives hold as many -map tokens as there are streams of the
    three types. *)
Theorem X9_one_map_per_known_stream (E : Env) (path : string)
    (start length : Z) (args : list string) :
  Transcode_args E path start length = Returns (inl args) ->
  exists streams ds,
    ffprobe_Run E path = inl streams
    /\ args = Transcode_vector E path start length ds
    /\ Forall2 (fun s d => streamArgs E s = Returns d
                           /\ (d = [] <-> known_codec_type s = false))
         streams ds
    /\ count_occ string_dec (concat ds) "-map"
       = List.length (List.filter known_codec_type streams).
Proof.
  intros Ha.
  apply Transcode_args_inv in Ha as (streams & ds & Hp & Hds & ->).
  exists streams, ds. split; [exact Hp | split; [reflexivity|]].
  clear Hp. induction Hds as [|s d streams ds Hd Hds [IH1 IH2]].
  - split; [constructor | reflexivity].
  - destruct (directive_map_count E s d Hd) as [Hc He]. split.
    + constructor; [split; assumption | exact IH1].
    + simpl. rewrite count_occ_app, Hc, IH2.
      destruct (known_codec_type s); reflexivity.
Qed.

(** A video, a data and a dca stream: two -map tokens. *)
Lemma X9_one_map_per_known_stream_witness :
  exists ds,
    count_occ string_dec (concat ds) "-map" = 2%nat
    /\ length ds = 3%nat.
Proof.
  destruct (X9_one_map_per_known_stream
              (sample_env [sample_stream "video" "h264" 0;
                           sample_stream "data" "bin" 1;
                           sample_stream "audio" "dca" 2] (inl 3%N) None)
              "a.mkv" 0 (-1) _ eq_refl)
    as (streams & ds & Hp & _ & Hds & Hc).
  injection Hp as <-. exists ds. split; [exact Hc|].
  apply Forall2_length in Hds. symmetry. exact Hds.
Defined.





(** Every way [transcodePipe] ends on a non-empty vector. *)
Lemma transcodePipe_cons_cases (E : Env) name rest stderr :
  let cmd := {| Path := name; Args := name :: rest; Stderr := stderr |} in
  (exists err,
     transcodePipe E (name :: rest) stderr
     = ([LogPrintln (name :: rest)], Returns (None, Some err)))
  \/ (exists h err,
        transcodePipe E (name :: rest) stderr
        = ([LogPrintln (name :: rest)], Returns (Some h, Some err)))
  \/ (exists h,
        transcodePipe E (name :: rest) stderr
        = ([LogPrintln (name :: rest); GoWait cmd], Returns (Some h, None))).
Proof.
  intros cmd. unfold transcodePipe. simpl.
  change (set_Stderr (exec_Command name rest) stderr) with cmd.
  destruct (cmd_StdoutPipe E cmd) as [h|err]; [|left; eauto].
  destruct (cmd_Start E cmd) as [err|]; right; [left | right]; eauto.
Qed.

Lemma transcodePipe_launched (E : Env) args stderr tr r :
  transcodePipe E args stderr = (tr, Returns (r, None)) -> launched stderr tr r.
Proof.
  destruct args as [|name rest]; [discriminate|].
  destruct (transcodePipe_cons_cases E name rest stderr)
    as [[err H]|[(h & err & H)|[h H]]]; rewrite H; intros [= <- <-].
  exists h, name, rest. split; reflexivity.
Qed.

Lemma transcodePipe_reaper (E : Env) args stderr tr o :
  transcodePipe E args stderr = (tr, o) ->
  (exists c, In (GoWait c) tr) -> exists h, o = Returns (Some h, None).
Proof.
  destruct args as [|name rest].
  - intros [= <- <-] [c [H|[]]]. discriminate H.
  - destruct (transcodePipe_cons_cases E name rest stderr)
      as [[err H]|[(h & err & H)|[h H]]]; rewrite H; intros [= <- <-];
      [| |eauto]; intros [c [Hc|[]]]; discriminate Hc.
Qed.

Lemma Transcode_unfold (E : Env) path start length stderr :
  Transcode E path start length stderr =
  match Transcode_args E path start length with
  | Returns (inl args) => transcodePipe E args stderr
  | Returns (inr err) => ([], Returns (None, Some err))
  | Panics p => ([], Panics p)
  end.
Proof.
  unfold Transcode, lift, bind.
  destruct (Transcode_args E path start length) as [[args|err]|p];
    try reflexivity.
  now destruct (transcodePipe E args stderr).
Qed.

Lemma Exec_unfold (E : Env) cmds start length stderr :
  Exec E cmds start length stderr =
  match parseCommandLine cmds with
  | (_, Some err) => ([], Returns (None, Some err))
  | (cmda, None) => transcodePipe E cmda stderr
  end.
Proof.
  unfold Exec. now destruct (parseCommandLine cmds) as [cmda [err|]].
Qed.

(** X11. A nil error means a running process.  Whenever one of the five entry
    points returns without error, it returns a stream, it has logged the
    vector exactly once, and it has spawned exactly one reaper, waiting on the
    command made from that very vector with the caller's sink as its error
    output. *)
Theorem X11_nil_error_means_launched (E : Env) (path cmds : string)
    (start length : Z) (stderr : Writer) (tr : list event)
    (r : option ReadCloser) :
  (Transcode E path start length stderr = (tr, Returns (r, None)) ->
   launched stderr tr r)
  /\ (VP8Transcode E path start length stderr = (tr, Returns (r, None)) ->
      launched stderr tr r)
  /\ (ChromecastTranscode E path start length stderr
      = (tr, Returns (r, None)) ->
      launched stderr tr r)
  /\ (WebTranscode E path start length stderr = (tr, Returns (r, None)) ->
      launched stderr tr r)
  /\ (Exec E cmds start length stderr = (tr, Returns (r, None)) ->
      launched stderr tr r).
Proof.
  repeat split; try apply transcodePipe_launched.
  - rewrite Transcode_unfold.
    destruct (Transcode_args E path start length) as [[args|err]|p];
      [apply transcodePipe_launched | discriminate | discriminate].
  - rewrite Exec_unfold.
    destruct (parseCommandLine cmds) as [cmda [err|]];
      [discriminate | apply transcodePipe_launched].
Qed.

Lemma X11_nil_error_means_launched_witness :
  launched 7%N
    [LogPrintln ["ffmpeg"; "-i"; "a.mkv"];
     GoWait {| Path := "ffmpeg"; Args := ["ffmpeg"; "-i"; "a.mkv"];
               Stderr := 7%N |}]
    (Some 3%N).
Proof.
  apply (proj2 (proj2 (proj2 (proj2
           (X11_nil_error_means_launched sample_host "" "ffmpeg -i a.mkv"
              0 0 7%N _ _))))).
  reflexivity.
Defined.

(** X12. No reaper without a launch.  If the events of one of the five entry
    points contain a reaper, the call has returned a stream and a nil error;
    a call that returns an error, or panics, has spawned none. *)
Theorem X12_reaper_only_on_success (E : Env) (path cmds : string)
    (start length : Z) (stderr : Writer) (tr : list event)
    (o : outcome results) :
  (exists c, In (GoWait c) tr) ->
  (Transcode E path start length stderr = (tr, o) ->
   exists h, o = Returns (Some h, None))
  /\ (VP8Transcode E path start length stderr = (tr, o) ->
      exists h, o = Returns (Some h, None))
  /\ (ChromecastTranscode E path start length stderr = (tr, o) ->
      exists h, o = Returns (Some h, None))
  /\ (WebTranscode E path start length stderr = (tr, o) ->
      exists h, o = Returns (Some h, None))
  /\ (Exec E cmds start length stderr = (tr, o) ->
      exists h, o = Returns (Some h, None)).
Proof.
  intros Hc. repeat split; intros H;
    try (eapply transcodePipe_reaper; [exact H | exact Hc]).
  - rewrite Transcode_unfold in H.
    destruct (Transcode_args E path start length) as [[args|err]|p];
      [eapply transcodePipe_reaper; [exact H | exact Hc] | |];
      injection H as <- _; destruct Hc as [c []].
  - rewrite Exec_unfold in H.
    destruct (parseCommandLine cmds) as [cmda [err|]];
      [injection H as <- _; destruct Hc as [c []]
      | eapply transcodePipe_reaper; [exact H | exact Hc]].
Qed.

Lemma X12_reaper_only_on_success_witness :
  exists h,
    snd (VP8Transcode sample_host "a.mkv" 0 0 7%N) = Returns (Some h, None).
Proof.
  refine (proj1 (proj2 (X12_reaper_only_on_success sample_host "a.mkv" ""
                          0 0 7%N _ _ _)) eq_refl).
  eexists. right. left. reflexivity.
Defined.

(** X13. What stops profile A before the launch.  When the probe fails,
    [Transcode] returns the probe error with no stream; when the probe reports
    a stream of codec type video, audio or subtitle whose index is missing or
    not a float64, [Transcode] panics in the type assertion.  In both cases
    nothing has been logged and nothing launched. *)
Theorem X13_Transcode_stops_before_launch (E : Env) (path : string)
    (start length : Z) (stderr : Writer) :
  (forall err,
     ffprobe_Run E path = inr err ->
     Transcode E path start length stderr = ([], Returns (None, Some err)))
  /\ (forall streams,
        ffprobe_Run E path = inl streams ->
        forallb well_formed streams = false ->
        Transcode E path start length stderr
        = ([], Panics InterfaceConversion)).
Proof.
  split.
  - intros err Hp. rewrite Transcode_unfold. unfold Transcode_args.
    now rewrite Hp.
  - intros streams Hp Hw. rewrite Transcode_unfold. unfold Transcode_args.
    rewrite Hp. now rewrite (range_Streams_ill_formed E streams _ Hw).
Qed.

(** A probed video stream without an index. *)
Lemma X13_Transcode_stops_before_launch_witness :
  Transcode
    (sample_env [sample_stream "audio" "aac" 1;
                 <[ "codec_type" := VString "video" ]> (empty : Stream)]
       (inl 3%N) None)
    "a.mkv" 0 0 7%N
  = ([], Panics InterfaceConversion).
Proof.
  apply (proj2 (X13_Transcode_stops_before_launch _ "a.mkv" 0 0 7%N)
           [sample_stream "audio" "aac" 1;
            <[ "codec_type" := VString "video" ]> (empty : Stream)]);
    reflexivity.
Defined.

(** X14. Profile A reaches the launcher on every well-formed probe: when the
    probe succeeds and each reported stream either has a codec type other than
    video, audio and subtitle or carries a float64 index, [Transcode] behaves
    as the launcher on the vector made of the fixed head, the directives of
    the streams in order and the mpegts tail; it then returns and does not
    panic. *)
Theorem X14_Transcode_launches (E : Env) (path : string) (start length : Z)
    (stderr : Writer) (streams : list Stream) :
  ffprobe_Run E path = inl streams ->
  forallb well_formed streams = true ->
  exists ds,
    directives E streams ds
    /\ Transcode E path start length stderr
       = transcodePipe E (Transcode_vector E path start length ds) stderr
    /\ exists tr res,
         Transcode E path start length stderr = (tr, Returns res).
Proof.
  intros Hp Hw.
  destruct (range_Streams_well_formed E streams Hw) as [ds Hds].
  destruct (Transcode_args_complete E path start length streams ds Hp Hds)
    as [args Ha].
  pose proof Ha as Hinv.
  apply Transcode_args_inv in Hinv as (streams' & ds' & Hp' & Hds' & ->).
  assert (streams' = streams) as -> by congruence.
  rewrite (directives_functional E streams ds Hds ds' Hds') in Ha.
  exists ds. split; [exact Hds|].
  rewrite Transcode_unfold, Ha. split; [reflexivity|].
  apply transcodePipe_cons_returns.
Qed.

Lemma X14_Transcode_launches_witness :
  exists tr res, Transcode sample_host "a.mkv" 0 0 7%N = (tr, Returns res).
Proof.
  destruct (X14_Transcode_launches sample_host "a.mkv" 0 0 7%N sample_streams
              eq_refl eq_refl) as (ds & _ & _ & H).
  exact H.
Defined.

(** X15. Profiles B, C and D never panic and never look at the probe: whatever
    the path, the window and the host, each of them returns, and its events
    and results are those obtained on a host with any other probe. *)
Theorem X15_fixed_profiles_return (E : Env) (path : string) (start length : Z)
    (stderr : Writer) (probe : string -> list Stream + error) :
  let E' := {| NumCPU := NumCPU E;
               FormatDurationSexagesimal := FormatDurationSexagesimal E;
               ffprobe_Run := probe;
               int_of_unrepresentable := int_of_unrepresentable E;
               cmd_StdoutPipe := cmd_StdoutPipe E;
               cmd_Start := cmd_Start E |} in
  (exists tr res, VP8Transcode E path start length stderr = (tr, Returns res))
  /\ (exists tr res,
        ChromecastTranscode E path start length stderr = (tr, Returns res))
  /\ (exists tr res,
        WebTranscode E path start length stderr = (tr, Returns res))
  /\ VP8Transcode E' path start length stderr
     = VP8Transcode E path start length stderr
  /\ ChromecastTranscode E' path start length stderr
     = ChromecastTranscode E path start length stderr
  /\ WebTranscode E' path start length stderr
     = WebTranscode E path start length stderr.
Proof.
  intros E'.
  unfold VP8Transcode, ChromecastTranscode, WebTranscode, VP8Transcode_args,
    ChromecastTranscode_args, WebTranscode_args.
  repeat split; destruct (0 <? length); apply transcodePipe_cons_returns.
Qed.

(** X16. [Exec] launches the words of its command: on a command made of
    non-empty words of plain bytes below 0x80, separated by single spaces,
    whose first word has at least two bytes unless it is the only one, [Exec]
    behaves as the launcher on the list of the words. *)
Theorem X16_Exec_launches_words (E : Env) (w1 : string) (ws : list string)
    (start length : Z) (stderr : Writer) :
  forallb word (w1 :: ws) = true ->
  forallb ascii_only (w1 :: ws) = true ->
  (2 <= String.length w1)%nat \/ ws = [] ->
  Exec E (join_words (w1 :: ws)) start length stderr
  = transcodePipe E (w1 :: ws) stderr.
Proof.
  intros Hws Ha Hlen. simpl in Hws. apply andb_prop in Hws as [Hw1 Hws].
  apply word_inv in Hw1 as [Hp1 Hne1].
  destruct w1 as [|c w]; [congruence|].
  simpl in Hp1. apply andb_prop in Hp1 as [_ Hp].
  assert (Hsep : w <> "" \/ ws = []).
  { destruct Hlen as [Hl|Hl]; [left | now right].
    destruct w; [simpl in Hl; lia | discriminate]. }
  rewrite Exec_unfold, (parse_words c w ws Hp Hws Hsep).
  change (utf8 (String c w) :: map utf8 ws) with (map utf8 (String c w :: ws)).
  now rewrite map_utf8_ascii_only.
Qed.

Lemma X16_Exec_launches_words_witness :
  Exec sample_host "ffmpeg -i a.mkv" 0 0 7%N
  = transcodePipe sample_host ["ffmpeg"; "-i"; "a.mkv"] 7%N.
Proof.
  apply (X16_Exec_launches_words sample_host "ffmpeg" ["-i"; "a.mkv"] 0 0 7%N
           eq_refl eq_refl).
  left. simpl. lia.
Defined.

Lemma step_args_prefix (c : ascii) (v : vars) :
  args v `prefix_of` args (step c v).
Proof.
  unfold step.
  destruct (state v);
    repeat match goal with
           | |- _ `prefix_of` args (if ?b then _ else _) => destruct b
           end;
    simpl; first [reflexivity | apply prefix_app_r; reflexivity].
Qed.

Lemma loop_args_prefix (command : string) :
  forall v, args v `prefix_of` args (loop command v).
Proof.
  induction command as [|c rest IH]; intros v; simpl; [reflexivity|].
  etransitivity; [apply step_args_prefix | apply IH].
Qed.

(** X17. Tokens once emitted are final: if a command tokenizes without error,
    the tokens the tokenizer had emitted after any prefix of it are the first
    tokens of the result, unchanged and in the same order. *)
Theorem X17_emitted_tokens_are_final (pre more : string) (toks : list string) :
  parseCommandLine (pre +:+ more) = (toks, None) ->
  args (loop pre init) `prefix_of` toks.
Proof.
  unfold parseCommandLine. rewrite loop_app. intros H.
  pose proof (loop_args_prefix more (loop pre init)) as Hp.
  unfold finish in H.
  destruct (state (loop more (loop pre init))); [| |discriminate];
    (destruct (negb _); injection H as <-;
     [etransitivity; [exact Hp | apply prefix_app_r; reflexivity] | exact Hp]).
Qed.

Lemma X17_emitted_tokens_are_final_witness :
  ["ffmpeg"; "-i"] `prefix_of` ["ffmpeg"; "-i"; "a.mkv"].
Proof.
  apply (X17_emitted_tokens_are_final "ffmpeg -i " "a.mkv").
  reflexivity.
Defined.

(** X18. Nothing of a descriptor but its index reaches the command line: every
    token of a directive is one of the fixed flags of the policy table, or 0:
    followed by the decimal rendering of an integer; the codec type and the
    codec name are only compared, never copied. *)
Theorem X18_directive_vocabulary (E : Env) (s : Stream) (d : list string) :
  streamArgs E s = Returns d -> Forall directive_token d.
Proof.
  intros Hd.
  revert Hd. unfold streamArgs, streamArgs_body, streamArgs_deferred.
  destruct (iface_eq_string (map_index s "codec_type") "video");
    [|destruct (iface_eq_string (map_index s "codec_type") "audio");
      [destruct (iface_eq_string (map_index s "codec_name") "dca")
      |destruct (iface_eq_string (map_index s "codec_type") "subtitle")]];
    simpl; try (intros [= <-]; constructor);
    destruct (map_index s "index"); try discriminate; intros [= <-];
    repeat (constructor; [first [ left; unfold policy_tokens; simpl; tauto
                                | right; eexists; reflexivity ] |]);
    constructor.
Qed.

Lemma X18_directive_vocabulary_witness :
  Forall directive_token ["-acodec"; "copy"; "-map"; "0:12"].
Proof.
  apply (X18_directive_vocabulary sample_host (sample_stream "audio" "aac" 12)).
  reflexivity.
Defined.
